(** * gensim.models.phrases: collocation detection, verified against its code

    A shallow embedding of [src/gensim/models/phrases.py].  Python objects are
    modelled as follows.

    - A token is a byte string ([string]); a sentence is a [list string].
    - A vocabulary ([defaultdict(int)]) is a [gmap string Z]; reading a key
      that is absent yields the default [0] (the source only ever reads keys
      it has tested with [in], or writes them with [+=]).
    - An exception is a value of [exn]; a call that may raise returns a
      [result].
    - A Python float is a [pyfloat]: the rational a finite binary64 value
      denotes, one of the two infinities, or NaN.  Arithmetic on floats
      rounds the exact result to the nearest binary64 value, ties to even
      ([round64]); a division by zero raises; the order is IEEE's: every
      comparison with NaN is false.  The sign of a zero is not recorded, no
      operation of the file tells the two zeros apart.  The counts of a
      vocabulary are below [2^53], so that [float(n)] is [n].
    - [min_count], [max_vocab_size], [progress_per] and the counts are
      integers; [scoring] is a string or a function.
    - The helpers of [gensim.utils] ([any2utf8], [to_unicode], [prune_vocab])
      and [math.log] are not part of the file; they are the parameters of
      section [Phrases]. *)

From Stdlib Require Import ZArith QArith Qfield String Ascii List Lia Bool.
From stdpp Require Import base gmap strings list fin_maps.

Open Scope string_scope.
Open Scope list_scope.
Open Scope Z_scope.

(** ** Exceptions *)

Inductive exn : Type :=
| ValueError (msg : string)
| TypeError (msg : string)
| UnboundLocalError (var : string)
| ZeroDivisionError.

Inductive result (A : Type) : Type :=
| Ok (a : A)
| Raise (e : exn).
Arguments Ok {A} a.
Arguments Raise {A} e.

(** A loop whose body may raise: the first exception ends it. *)
Fixpoint fold_result {A B : Type} (f : A -> B -> result A) (l : list B)
    (a : A) : result A :=
  match l with
  | [] => Ok a
  | x :: l' =>
      match f a x with
      | Raise e => Raise e
      | Ok a' => fold_result f l' a'
      end
  end.

(** A generator run to its end: the values of [f] on the elements of [l], or
    the first exception. *)
Fixpoint map_result {A B : Type} (f : A -> result B) (l : list A)
  : result (list B) :=
  match l with
  | [] => Ok []
  | x :: l' =>
      match f x with
      | Raise e => Raise e
      | Ok y =>
          match map_result f l' with
          | Raise e => Raise e
          | Ok ys => Ok (y :: ys)
          end
      end
  end.

(** ** Python floats *)

Inductive pyfloat : Type :=
| Fin (q : Q)
| PosInf
| NegInf
| NaN.

(** [x > y] on floats. *)
Definition float_gt (x y : pyfloat) : bool :=
  match x, y with
  | NaN, _ | _, NaN => false
  | NegInf, _ => false
  | _, PosInf => false
  | PosInf, _ => true
  | Fin _, NegInf => true
  | Fin a, Fin b => if Qlt_le_dec b a then true else false
  end.

(** [x < y] on floats. *)
Definition float_lt (x y : pyfloat) : bool := float_gt y x.

(** [x <= y] on floats. *)
Definition float_le (x y : pyfloat) : bool :=
  match x, y with
  | NaN, _ | _, NaN => false
  | NegInf, _ => true
  | _, PosInf => true
  | PosInf, _ => false
  | Fin _, NegInf => false
  | Fin a, Fin b => if Qlt_le_dec b a then false else true
  end.

(** [float(n)] for a Python integer [n]. *)
Definition float_of_int (n : Z) : Q := inject_Z n.

(** [-x] on floats. *)
Definition float_neg (x : pyfloat) : pyfloat :=
  match x with
  | Fin q => Fin (- q)
  | PosInf => NegInf
  | NegInf => PosInf
  | NaN => NaN
  end.

(** The binary64 value nearest to [n / d] for a positive [n], ties to even.
    A binary64 value is [m * 2^e] with [m < 2^53] and [-1074 <= e]; [e] is
    chosen so that [2^52 <= n / (d * 2^e) < 2^53], or is [-1074] for a
    subnormal result; a result of [2^1024] or more is an overflow. *)
Definition round64_pos (n : Z) (d : positive) : pyfloat :=
  let k := Z.log2 n - Z.log2 (Zpos d) in
  let above := if 0 <=? k then Zpos d * 2 ^ k <=? n
               else Zpos d <=? n * 2 ^ (- k) in
  let e := Z.max (if above then k - 52 else k - 53) (-1074) in
  let num := if 0 <=? e then n else n * 2 ^ (- e) in
  let den := if 0 <=? e then Zpos d * 2 ^ e else Zpos d in
  let m := num / den in
  let r := num mod den in
  let m' := match 2 * r ?= den with
            | Lt => m
            | Gt => m + 1
            | Eq => if Z.even m then m else m + 1
            end in
  if (1024 <? e) || (2 ^ (1024 - e) <=? m') then PosInf
  else if 0 <=? e then Fin (inject_Z (m' * 2 ^ e))
       else Fin (Qred (m' # Z.to_pos (2 ^ (- e)))).

(** The float an arithmetic operation returns when its exact result is
    [q]. *)
Definition round64 (q : Q) : pyfloat :=
  match Qnum q with
  | 0 => Fin 0
  | Zpos n => round64_pos (Zpos n) (Qden q)
  | Zneg n => float_neg (round64_pos (Zpos n) (Qden q))
  end.

(** [x - y] on floats. *)
Definition float_sub (x y : pyfloat) : pyfloat :=
  match x, y with
  | NaN, _ | _, NaN => NaN
  | PosInf, PosInf | NegInf, NegInf => NaN
  | PosInf, _ | _, NegInf => PosInf
  | NegInf, _ | _, PosInf => NegInf
  | Fin a, Fin b => round64 (a - b)
  end.

(** The product of an infinity and a float of the sign of [s]. *)
Definition signed_inf (positive : bool) (s : Z) : pyfloat :=
  match s with
  | 0 => NaN
  | Zpos _ => if positive then PosInf else NegInf
  | Zneg _ => if positive then NegInf else PosInf
  end.

(** [x * y] on floats. *)
Definition float_mul (x y : pyfloat) : pyfloat :=
  match x, y with
  | NaN, _ | _, NaN => NaN
  | Fin a, Fin b => round64 (a * b)
  | Fin a, PosInf | PosInf, Fin a => signed_inf true (Qnum a)
  | Fin a, NegInf | NegInf, Fin a => signed_inf false (Qnum a)
  | PosInf, PosInf | NegInf, NegInf => PosInf
  | PosInf, NegInf | NegInf, PosInf => NegInf
  end.

(** [x / y] on floats: a zero divisor raises, whatever [x] is. *)
Definition float_div (x y : pyfloat) : result pyfloat :=
  match y with
  | Fin b =>
      if Qnum b =? 0 then Raise ZeroDivisionError
      else match x with
           | Fin a => Ok (round64 (a / b))
           | PosInf => Ok (signed_inf true (Qnum b))
           | NegInf => Ok (signed_inf false (Qnum b))
           | NaN => Ok NaN
           end
  | PosInf | NegInf =>
      match x with
      | Fin _ => Ok (Fin 0)
      | _ => Ok NaN
      end
  | NaN => Ok NaN
  end.

(** ** Byte strings *)

(** [sep.join(parts)]. *)
Fixpoint str_join (sep : string) (parts : list string) : string :=
  match parts with
  | [] => ""
  | [x] => x
  | x :: rest => x +:+ sep +:+ str_join sep rest
  end.

(** [sep in k]. *)
Fixpoint contains (sep k : string) : bool :=
  String.prefix sep k ||
  match k with
  | EmptyString => false
  | String _ k' => contains sep k'
  end.

(** The scan of [k.split(sep)] for a non-empty [sep]: [skip] counts the
    bytes of a matched separator that are still to be passed over. *)
Fixpoint split_scan (sep : string) (skip : nat) (k : string) : list string :=
  match k with
  | EmptyString => [""]
  | String c k' =>
      match skip with
      | S n => split_scan sep n k'
      | O =>
          if String.prefix sep k
          then "" :: split_scan sep (String.length sep - 1) k'
          else match split_scan sep O k' with
               | piece :: pieces => String c piece :: pieces
               | [] => [String c ""]
               end
      end
  end.

(** [k.split(sep)]; an empty separator is an error. *)
Definition split (sep k : string) : result (list string) :=
  match sep with
  | EmptyString => Raise (ValueError "empty separator")
  | _ => Ok (split_scan sep O k)
  end.

(** ** Iterators *)

(** [next(it)]: the head and the advanced iterator, or [None] for
    [StopIteration]. *)
Definition next {A : Type} (it : list A) : option (A * list A) :=
  match it with
  | [] => None
  | x :: it' => Some (x, it')
  end.

(** [itertools.chain(a, b)]. *)
Definition chain {A : Type} (a b : list A) : list A := a ++ b.

(** [zip(s, s[1:])]. *)
Definition bigrams (s : list string) : list (string * string) :=
  zip s (tail s).

(** What an input iterable yields: a string, or a document. *)
Inductive item : Type :=
| Str (w : string)
| Doc (d : list string).

(** [isinstance(x, string_types)]. *)
Definition is_string (x : item) : bool :=
  match x with
  | Str _ => true
  | Doc _ => false
  end.

(** [_is_single], lines 78-99. *)
Definition _is_single (obj : list item) : bool * list item :=
  let obj_iter := obj in
  match next obj_iter with
  | None => (true, obj)
  | Some (peek, obj_iter) =>
      let obj_iter := chain [peek] obj_iter in
      if is_string peek then (true, obj_iter) else (false, obj_iter)
  end.

(** The strings of a document; [None] when an element is not a string
    (the conversion of such an element to bytes raises). *)
Fixpoint tokens_of (sentence : list item) : option (list string) :=
  match sentence with
  | [] => Some []
  | Str w :: rest => option_map (cons w) (tokens_of rest)
  | Doc _ :: _ => None
  end.

(** The value of [self[obj]]: the tokens of one transformed sentence, or
    the stream [self._apply(corpus)] over the restored corpus. *)
Inductive transformed : Type :=
| Sentence (tokens : list string)
| Corpus (docs : list item).

(** ** Vocabularies *)

(** [k in vocab]. *)
Definition has_key {K V : Type} `{Countable K} (k : K) (m : gmap K V) : bool :=
  match m !! k with
  | Some _ => true
  | None => false
  end.

(** [vocab[k]] read on a [defaultdict(int)]: [0] for an absent key. *)
Definition count_of (vocab : gmap string Z) (k : string) : Z :=
  default 0 (vocab !! k).

(** [vocab[k] += n] on a [defaultdict(int)]. *)
Definition add_count (k : string) (n : Z) (vocab : gmap string Z)
  : gmap string Z :=
  <[k := count_of vocab k + n]> vocab.

(** [len(vocab)]. *)
Definition len (vocab : gmap string Z) : Z := Z.of_nat (size vocab).

(** Modelled from the spec: [utils.prune_vocab(vocab, min_reduce)] is not in
    [src/]; section 3 of the specification says that pruning "removes all
    entries with count < current [min_reduce]". *)
Definition prune_vocab_spec (vocab : gmap string Z) (min_reduce : Z)
  : gmap string Z :=
  filter (fun kv => min_reduce <= kv.2) vocab.

(** ** Scoring functions *)

(** [original_scorer], lines 448-449, read over exact rationals.  The body
    is generic in the numeric type of its arguments; Python raises
    [ZeroDivisionError] where a divisor is zero, the rational division used
    here returns [0] there. *)
Definition original_scorer
    (worda_count wordb_count bigram_count len_vocab min_count
       corpus_word_count : Q) : Q :=
  ((bigram_count - min_count) / worda_count / wordb_count * len_vocab)%Q.

(** [original_scorer], lines 448-449, on the floats it is called with: every
    operation rounds, and a zero divisor raises. *)
Definition original_scorer_float
    (worda_count wordb_count bigram_count len_vocab min_count
       corpus_word_count : pyfloat) : result pyfloat :=
  match float_div (float_sub bigram_count min_count) worda_count with
  | Raise e => Raise e
  | Ok per_a =>
      match float_div per_a wordb_count with
      | Raise e => Raise e
      | Ok per_ab => Ok (float_mul per_ab len_vocab)
      end
  end.

(** What [pickle.dumps] followed by [pickle.loads] does with an object. *)
Inductive pickle_outcome : Type :=
| Pickled
| DumpsFails
| LoadsFails.

(** A function object passed as [scoring]: its [__name__], the parameter
    names [getargspec] reports, how pickling it goes, and what a call with
    the six keyword arguments [worda_count], [wordb_count], [bigram_count],
    [len_vocab], [min_count], [corpus_word_count] (in this order, each the
    float of an integer) does: it returns a score or raises. *)
Record scorer : Type := Scorer {
  sc_name : string;
  sc_args : list string;
  sc_pickle : pickle_outcome;
  sc_call : Q -> Q -> Q -> Q -> Q -> Q -> result pyfloat
}.

Definition scoring_parameters : list string :=
  ["worda_count"; "wordb_count"; "bigram_count"; "len_vocab"; "min_count";
   "corpus_word_count"].

(** The [scoring] argument of the constructor: a string or a function. *)
Inductive scoring_arg : Type :=
| ScoringStr (s : string)
| ScoringFn (f : scorer).

(** [scoring == name]: a function is never equal to a string. *)
Definition scoring_eq (scoring : scoring_arg) (name : string) : bool :=
  match scoring with
  | ScoringStr s => String.eqb s name
  | ScoringFn _ => false
  end.

(** The default scorer as a function object. *)
Definition original_scorer_fn : scorer :=
  {| sc_name := "original_scorer";
     sc_args := scoring_parameters;
     sc_pickle := Pickled;
     sc_call := fun a b ab n mc cwc =>
       original_scorer_float (Fin a) (Fin b) (Fin ab) (Fin n) (Fin mc)
         (Fin cwc) |}.

(** ** The model *)

(** The attributes of a [Phrases] object; [S] is the type of its [scoring]
    attribute, a function on a constructed model. *)
Record model (S : Type) : Type := Model {
  min_count : Z;
  threshold : pyfloat;
  max_vocab_size : Z;
  vocab : gmap string Z;
  min_reduce : Z;
  delimiter : string;
  progress_per : Z;
  corpus_word_count : Z;
  scoring : S
}.
Arguments Model {S}.
Arguments min_count {S}.
Arguments threshold {S}.
Arguments max_vocab_size {S}.
Arguments vocab {S}.
Arguments min_reduce {S}.
Arguments delimiter {S}.
Arguments progress_per {S}.
Arguments corpus_word_count {S}.
Arguments scoring {S}.

(** The same object with its [scoring] attribute set to [f]. *)
Definition set_scoring {S T : Type} (m : model S) (f : T) : model T :=
  Model (min_count m) (threshold m) (max_vocab_size m) (vocab m)
    (min_reduce m) (delimiter m) (progress_per m) (corpus_word_count m) f.

Abbreviation Phrases := (model scorer).

(** The [scoring] attribute of an unpickled object: absent in the oldest
    models, a string in older ones, a function otherwise. *)
Inductive scoring_attr : Type :=
| AttrStr (s : string)
| AttrFn (f : scorer).

Abbreviation unpickled := (model (option scoring_attr)).

(** A [Phraser] object. *)
Record Phraser : Type := MkPhraser {
  phraser_threshold : pyfloat;
  phraser_min_count : Z;
  phraser_delimiter : string;
  phraser_scoring : scorer;
  phrasegrams : gmap (string * string) (Z * pyfloat)
}.

Section Phrases.

Set Default Proof Using "Type".

(** [utils.any2utf8] and [utils.to_unicode]. *)
Variable any2utf8 : string -> string.
Variable to_unicode : string -> string.

(** [math.log]: the float it returns, or the exception it raises. *)
Variable log : pyfloat -> result pyfloat.

(** [utils.prune_vocab(vocab, min_reduce)]: the vocabulary it leaves. *)
Variable prune_vocab : gmap string Z -> Z -> gmap string Z.

(** [npmi_scorer], lines 453-457, on floats.  The left operand of the last
    division is evaluated before the right one. *)
Definition npmi_scorer
    (worda_count wordb_count bigram_count len_vocab min_count
       corpus_word_count : pyfloat) : result pyfloat :=
  match float_div worda_count corpus_word_count with
  | Raise e => Raise e
  | Ok pa =>
      match float_div wordb_count corpus_word_count with
      | Raise e => Raise e
      | Ok pb =>
          match float_div bigram_count corpus_word_count with
          | Raise e => Raise e
          | Ok pab =>
              match float_div pab (float_mul pa pb) with
              | Raise e => Raise e
              | Ok ratio =>
                  match log ratio with
                  | Raise e => Raise e
                  | Ok log_ratio =>
                      match log pab with
                      | Raise e => Raise e
                      | Ok log_pab => float_div log_ratio (float_neg log_pab)
                      end
                  end
              end
          end
      end
  end.

(** The npmi scorer as a function object. *)
Definition npmi_scorer_fn : scorer :=
  {| sc_name := "npmi_scorer";
     sc_args := scoring_parameters;
     sc_pickle := Pickled;
     sc_call := fun a b ab n mc cwc =>
       npmi_scorer (Fin a) (Fin b) (Fin ab) (Fin n) (Fin mc) (Fin cwc) |}.

(** *** [Phrases.learn_vocab], lines 228-261 *)

(** The body of the loop over [zip(sentence, sentence[1:])]. *)
Definition count_bigram (delimiter : string)
    (st : gmap string Z * Z) (bigram : string * string) : gmap string Z * Z :=
  let '(vocab, total_words) := st in
  let vocab := add_count bigram.1 1 vocab in
  let vocab := add_count (str_join delimiter [bigram.1; bigram.2]) 1 vocab in
  (vocab, total_words + 1).

(** The counting of one sentence: the loop over its bigrams and the
    [if sentence:] block after it. *)
Definition count_sentence (delimiter : string)
    (st : gmap string Z * Z) (sentence : list string) : gmap string Z * Z :=
  let sentence := map any2utf8 sentence in
  let '(vocab, total_words) :=
    fold_left (count_bigram delimiter) (bigrams sentence) st in
  match last sentence with
  | Some word => (add_count word 1 vocab, total_words + 1)
  | None => (vocab, total_words)
  end.

(** Lines 242-255 of an iteration of the loop over the sentences: what
    follows the progress report; the state is
    [(min_reduce, vocab, total_words)]. *)
Definition learn_sentence (max_vocab_size : Z) (delimiter : string)
    (st : Z * gmap string Z * Z) (sentence : list string)
  : Z * gmap string Z * Z :=
  let '(min_reduce, vocab, total_words) := st in
  let '(vocab, total_words) :=
    count_sentence delimiter (vocab, total_words) sentence in
  if len vocab >? max_vocab_size
  then (min_reduce + 1, prune_vocab vocab min_reduce, total_words)
  else (min_reduce, vocab, total_words).

(** One iteration, lines 237-255.  The test [sentence_no % progress_per == 0]
    raises when [progress_per] is zero; otherwise it only decides whether a
    line is logged. *)
Definition learn_iteration (max_vocab_size : Z) (delimiter : string)
    (progress_per : Z) (st : Z * gmap string Z * Z) (sentence : list string)
  : result (Z * gmap string Z * Z) :=
  if progress_per =? 0 then Raise ZeroDivisionError
  else Ok (learn_sentence max_vocab_size delimiter st sentence).

Definition learn_vocab (sentences : list (list string)) (max_vocab_size : Z)
    (delimiter : string) (progress_per : Z)
  : result (Z * gmap string Z * Z) :=
  fold_result (learn_iteration max_vocab_size delimiter progress_per)
    sentences (1, ∅, 0).

(** *** [Phrases.add_vocab], lines 263-288 *)

(** [for word, count in iteritems(vocab): self.vocab[word] += count]. *)
Definition merge_counts (self_vocab vocab : gmap string Z) : gmap string Z :=
  map_fold (fun word count acc => add_count word count acc) self_vocab vocab.

(** Lines 275-288: what [add_vocab] does with the triple [learn_vocab]
    returned. *)
Definition merge_vocab (self : Phrases) (learned : Z * gmap string Z * Z)
  : Phrases :=
  let '(min_reduce', vocab', total_words) := learned in
  let cwc := corpus_word_count self + total_words in
  if len (vocab self) >? 0 then
    let mr := Z.max (min_reduce self) min_reduce' in
    let merged := merge_counts (vocab self) vocab' in
    if len merged >? max_vocab_size self
    then Model (min_count self) (threshold self) (max_vocab_size self)
           (prune_vocab merged mr) (mr + 1) (delimiter self)
           (progress_per self) cwc (scoring self)
    else Model (min_count self) (threshold self) (max_vocab_size self)
           merged mr (delimiter self) (progress_per self) cwc (scoring self)
  else
    Model (min_count self) (threshold self) (max_vocab_size self)
      vocab' (min_reduce self) (delimiter self) (progress_per self) cwc
      (scoring self).

Definition add_vocab (self : Phrases) (sentences : list (list string))
  : result Phrases :=
  match learn_vocab sentences (max_vocab_size self) (delimiter self)
          (progress_per self) with
  | Raise e => Raise e
  | Ok learned => Ok (merge_vocab self learned)
  end.

(** *** [Phrases.__init__], lines 172-219 *)

(** Lines 172-216: everything before the sentences are looked at.  When
    [pickle.dumps] or [pickle.loads] fails, the [finally] block deletes a
    local that was never bound ([test_pickle], respectively [load_pickle]),
    and it is that error which leaves the constructor. *)
Definition Phrases_configure (min_count : Z) (threshold : pyfloat)
    (max_vocab_size : Z) (delimiter : string) (progress_per : Z)
    (scoring : scoring_arg) : result Phrases :=
  if min_count <=? 0 then
    Raise (ValueError "min_count should be at least 1")
  else if float_le threshold (Fin 0) && scoring_eq scoring "default" then
    Raise (ValueError "threshold should be positive for default scoring")
  else if scoring_eq scoring "npmi" &&
          (float_lt threshold (Fin (-1)) || float_gt threshold (Fin 1)) then
    Raise (ValueError "threshold should be between -1 and 1 for npmi scoring")
  else
    let resolved :=
      match scoring with
      | ScoringStr s =>
          if String.eqb s "default" then Ok original_scorer_fn
          else if String.eqb s "npmi" then Ok npmi_scorer_fn
          else Raise (ValueError
                        ("unknown scoring method string " +:+ s +:+
                         " specified"))
      | ScoringFn f => Ok f
      end in
    match resolved with
    | Raise e => Raise e
    | Ok scoring =>
        if forallb (fun parameter =>
                      existsb (String.eqb parameter) (sc_args scoring))
             scoring_parameters
        then
          match sc_pickle scoring with
          | Pickled =>
              Ok (Model min_count threshold max_vocab_size ∅ 1 delimiter
                    progress_per 0 scoring)
          | DumpsFails => Raise (UnboundLocalError "test_pickle")
          | LoadsFails => Raise (UnboundLocalError "load_pickle")
          end
        else Raise (ValueError "scoring function missing expected parameters")
    end.

Definition Phrases_init (sentences : option (list (list string)))
    (min_count : Z) (threshold : pyfloat) (max_vocab_size : Z)
    (delimiter : string) (progress_per : Z) (scoring : scoring_arg)
  : result Phrases :=
  match Phrases_configure min_count threshold max_vocab_size delimiter
          progress_per scoring with
  | Raise e => Raise e
  | Ok self =>
      match sentences with
      | Some sentences => add_vocab self sentences
      | None => Ok self
      end
  end.

(** *** Scoring a pair, lines 320-330 and 382-392 *)

(** The test [export_phrases] and [__getitem__] both make on a pair
    [(word_a, word_b)]: [Some (bigram_word, score)] when the pair is to be
    emitted as a phrase, [None] when control falls through; the call of the
    scoring function may raise. *)
Definition candidate (self : Phrases) (last_bigram : bool)
    (word_a word_b : string) : result (option (string * pyfloat)) :=
  let vocab := vocab self in
  let len_vocab := float_of_int (len vocab) in
  let scorer_min_count := float_of_int (min_count self) in
  let corpus_word_count := float_of_int (corpus_word_count self) in
  if has_key word_a vocab && has_key word_b vocab && negb last_bigram then
    let bigram_word := str_join (delimiter self) [word_a; word_b] in
    if has_key bigram_word vocab then
      let count_a := float_of_int (count_of vocab word_a) in
      let count_b := float_of_int (count_of vocab word_b) in
      let count_ab := float_of_int (count_of vocab bigram_word) in
      match sc_call (scoring self) count_a count_b count_ab len_vocab
              scorer_min_count corpus_word_count with
      | Raise e => Raise e
      | Ok score =>
          if float_gt score (threshold self) &&
             Qle_bool (inject_Z (min_count self)) count_ab
          then Ok (Some (bigram_word, score))
          else Ok None
      end
    else Ok None
  else Ok None.

(** *** [Phrases.export_phrases], lines 290-337 *)

(** The loop over the pairs of one sentence, with [as_tuples=True]; the
    state is [(last_bigram, phrases yielded so far)]. *)
Definition export_step (self : Phrases)
    (st : bool * list (string * string * pyfloat)) (p : string * string)
  : result (bool * list (string * string * pyfloat)) :=
  let '(last_bigram, out) := st in
  let '(word_a, word_b) := p in
  match candidate self last_bigram word_a word_b with
  | Raise e => Raise e
  | Ok (Some (_, score)) => Ok (true, out ++ [(word_a, word_b, score)])
  | Ok None => Ok (false, out)
  end.

Definition export_sentence (self : Phrases) (sentence : list string)
  : result (list (string * string * pyfloat)) :=
  let s := map any2utf8 sentence in
  match fold_result (export_step self) (bigrams s) (false, []) with
  | Raise e => Raise e
  | Ok (_, out) => Ok out
  end.

(** [export_phrases(sentences, out_delimiter, as_tuples=True)], run to its
    end; with tuples [out_delimiter] is not used. *)
Definition export_phrases_as_tuples (self : Phrases)
    (sentences : list (list string))
  : result (list (string * string * pyfloat)) :=
  match map_result (export_sentence self) sentences with
  | Raise e => Raise e
  | Ok phrases => Ok (concat phrases)
  end.

(** [export_phrases(sentences, out_delimiter, as_tuples=False)], run to its
    end. *)
Definition export_phrases (self : Phrases) (sentences : list (list string))
    (out_delimiter : string) : result (list (string * pyfloat)) :=
  match export_phrases_as_tuples self sentences with
  | Raise e => Raise e
  | Ok phrases =>
      Ok (map (fun '(word_a, word_b, score) =>
                 (str_join out_delimiter [word_a; word_b], score))
            phrases)
  end.

(** *** [Phrases.__getitem__], lines 339-406 *)

(** The loop body, lines 380-399; the state is [(last_bigram, new_s)]. *)
Definition getitem_step (self : Phrases) (st : bool * list string)
    (p : string * string) : result (bool * list string) :=
  let '(last_bigram, new_s) := st in
  let '(word_a, word_b) := p in
  match candidate self last_bigram word_a word_b with
  | Raise e => Raise e
  | Ok (Some (bigram_word, _)) => Ok (true, new_s ++ [bigram_word])
  | Ok None => Ok (false, if last_bigram then new_s else new_s ++ [word_a])
  end.

(** The single-sentence transform, lines 376-406. *)
Definition Phrases_transform (self : Phrases) (sentence : list string)
  : result (list string) :=
  let s := map any2utf8 sentence in
  match fold_result (getitem_step self) (bigrams s) (false, []) with
  | Raise e => Raise e
  | Ok (last_bigram, new_s) =>
      let new_s :=
        match last s with
        | Some last_token =>
            if last_bigram then new_s else new_s ++ [last_token]
        | None => new_s
        end in
      Ok (map to_unicode new_s)
  end.

(** The value [__getitem__] returns for a single sentence. *)
Definition as_sentence (tokens : result (list string)) : result transformed :=
  match tokens with
  | Raise e => Raise e
  | Ok tokens => Ok (Sentence tokens)
  end.

Definition Phrases_getitem (self : Phrases) (obj : list item)
  : result transformed :=
  let '(is_single, sentence) := _is_single obj in
  if negb is_single then Ok (Corpus sentence)
  else match tokens_of sentence with
       | Some ws => as_sentence (Phrases_transform self ws)
       | None => Raise (TypeError "expected a string")
       end.

(** *** [Phrases.load], lines 408-441 *)

(** The fix-up of the object [super().load] returns. *)
Definition Phrases_load (loaded : unpickled) : result Phrases :=
  let attr :=
    match scoring loaded with
    | None => AttrFn original_scorer_fn
    | Some a => a
    end in
  match attr with
  | AttrStr s =>
      if String.eqb s "default" then Ok (set_scoring loaded original_scorer_fn)
      else if String.eqb s "npmi" then Ok (set_scoring loaded npmi_scorer_fn)
      else Raise (ValueError
                    ("failed to load Phrases model with unknown scoring setting "
                     +:+ s))
  | AttrFn f => Ok (set_scoring loaded f)
  end.

(** *** [pseudocorpus], lines 460-467 *)

(** The sentences one key of the vocabulary contributes. *)
Definition pseudocorpus_key (sep k : string) : result (list (list string)) :=
  if negb (contains sep k) then Ok []
  else
    match split sep k with
    | Raise e => Raise e
    | Ok unigrams =>
        Ok (map (fun i => [str_join sep (take i unigrams);
                           str_join sep (drop i unigrams)])
              (seq 1 (length unigrams - 1)))
    end.

Fixpoint pseudocorpus_keys (sep : string) (keys : list string)
  : result (list (list string)) :=
  match keys with
  | [] => Ok []
  | k :: keys' =>
      match pseudocorpus_key sep k with
      | Raise e => Raise e
      | Ok sentences =>
          match pseudocorpus_keys sep keys' with
          | Raise e => Raise e
          | Ok rest => Ok (sentences ++ rest)
          end
      end
  end.

(** The keys are visited in the order the map lists them. *)
Definition pseudocorpus (source_vocab : gmap string Z) (sep : string)
  : result (list (list string)) :=
  pseudocorpus_keys sep (map fst (map_to_list source_vocab)).

(** *** [Phraser.__init__], lines 483-499 *)

Definition add_phrasegram (phrases_model : Phrases) (delimiter : string)
    (pg : gmap (string * string) (Z * pyfloat))
    (entry : string * string * pyfloat) : gmap (string * string) (Z * pyfloat) :=
  let '(word_a, word_b, score) := entry in
  <[(word_a, word_b) :=
      (count_of (vocab phrases_model)
         (str_join delimiter [word_a; word_b]), score)]> pg.

(** The pseudo-corpus raises, if it does, at its first key, before any
    pair is scored. *)
Definition Phraser_init (phrases_model : Phrases) : result Phraser :=
  match pseudocorpus (vocab phrases_model) (delimiter phrases_model) with
  | Raise e => Raise e
  | Ok corpus =>
      match export_phrases_as_tuples phrases_model corpus with
      | Raise e => Raise e
      | Ok phrases =>
          Ok {| phraser_threshold := threshold phrases_model;
                phraser_min_count := min_count phrases_model;
                phraser_delimiter := delimiter phrases_model;
                phraser_scoring := scoring phrases_model;
                phrasegrams :=
                  fold_left
                    (add_phrasegram phrases_model (delimiter phrases_model))
                    phrases ∅ |}
      end
  end.

(** *** [Phraser.__getitem__], lines 501-539 *)

(** [phrasegrams.get(bigram_tuple, (-1, -1))[1]]. *)
Definition stored_score (self : Phraser) (bigram_tuple : string * string)
  : pyfloat :=
  (default (-1, Fin (-1)) (phrasegrams self !! bigram_tuple)).2.

(** The loop body, lines 522-532. *)
Definition phraser_step (self : Phraser) (st : bool * list string)
    (p : string * string) : bool * list string :=
  let '(last_bigram, new_s) := st in
  let '(word_a, word_b) := p in
  if float_gt (stored_score self (word_a, word_b)) (phraser_threshold self)
     && negb last_bigram
  then (true, new_s ++ [str_join (phraser_delimiter self) [word_a; word_b]])
  else (false, if last_bigram then new_s else new_s ++ [word_a]).

(** The single-sentence transform, lines 518-539. *)
Definition Phraser_transform (self : Phraser) (sentence : list string)
  : list string :=
  let s := map any2utf8 sentence in
  let '(last_bigram, new_s) :=
    fold_left (phraser_step self) (bigrams s) (false, []) in
  let new_s :=
    match last s with
    | Some last_token => if last_bigram then new_s else new_s ++ [last_token]
    | None => new_s
    end in
  map to_unicode new_s.

Definition Phraser_getitem (self : Phraser) (obj : list item)
  : result transformed :=
  let '(is_single, sentence) := _is_single obj in
  if negb is_single then Ok (Corpus sentence)
  else match tokens_of sentence with
       | Some ws => Ok (Sentence (Phraser_transform self ws))
       | None => Raise (TypeError "expected a string")
       end.

(** ** Specification-level notions *)

(** Greedy, left-to-right, non-overlapping merging of adjacent pairs, as the
    specification words it: a qualifying pair becomes one token and the scan
    resumes after it; otherwise the first token is kept and the scan resumes
    at the second. *)
Fixpoint greedy_merge (qualifies : string -> string -> bool)
    (joined : string -> string -> string) (s : list string) : list string :=
  match s with
  | [] => []
  | a :: tl =>
      match tl with
      | [] => [a]
      | b :: rest =>
          if qualifies a b
          then joined a b :: greedy_merge qualifies joined rest
          else a :: greedy_merge qualifies joined tl
      end
  end.

(** What the call of the scoring function on the pair [(word_a, word_b)]
    does in the full model. *)
Definition pair_score (self : Phrases) (word_a word_b : string)
  : result pyfloat :=
  sc_call (scoring self)
    (float_of_int (count_of (vocab self) word_a))
    (float_of_int (count_of (vocab self) word_b))
    (float_of_int
       (count_of (vocab self) (str_join (delimiter self) [word_a; word_b])))
    (float_of_int (len (vocab self)))
    (float_of_int (min_count self))
    (float_of_int (corpus_word_count self)).

(** The call returned a score, and the score is above [threshold]. *)
Definition score_above (score : result pyfloat) (threshold : pyfloat) : bool :=
  match score with
  | Ok score => float_gt score threshold
  | Raise _ => false
  end.

(** The scoring function returns on the pair whenever the model calls it:
    when both words and the compound key are in the vocabulary. *)
Definition defined_at (self : Phrases) (word_a word_b : string) : Prop :=
  is_Some (vocab self !! word_a) ->
  is_Some (vocab self !! word_b) ->
  is_Some (vocab self !! str_join (delimiter self) [word_a; word_b]) ->
  exists score, pair_score self word_a word_b = Ok score.

Definition scores_defined (self : Phrases) : Prop :=
  forall word_a word_b, defined_at self word_a word_b.

(** What the tail of both transforms does with the last token. *)
Definition emit_last (s : list string) (st : bool * list string)
  : list string :=
  let '(last_bigram, new_s) := st in
  match last s with
  | Some last_token => if last_bigram then new_s else new_s ++ [last_token]
  | None => new_s
  end.

(** The pair [(word_a, word_b)] passes the test of the full model. *)
Definition qualifies (self : Phrases) (word_a word_b : string) : bool :=
  match candidate self false word_a word_b with
  | Ok (Some _) => true
  | _ => false
  end.

(** The pair passes the test of the compiled model. *)
Definition phraser_qualifies (self : Phraser) (word_a word_b : string) : bool :=
  float_gt (stored_score self (word_a, word_b)) (phraser_threshold self).

(** The number of adjacent pairs, and of tokens, in a stream of sentences. *)
Definition pairs_in (sentences : list (list string)) : Z :=
  Z.of_nat (length (concat (map bigrams sentences))).

Definition tokens_in (sentences : list (list string)) : Z :=
  Z.of_nat (length (concat sentences)).

(** The number of elements of [l] equal to [k]. *)
Definition occurrences (k : string) (l : list string) : Z :=
  Z.of_nat (length (filter (fun x => x = k) l)).



(** The model states a program can reach: construction, then any number of
    [add_vocab] calls that return. *)
Inductive reachable : Phrases -> Prop :=
| reachable_init sentences min_count threshold max_vocab_size delimiter
    progress_per scoring self :
    Phrases_init sentences min_count threshold max_vocab_size delimiter
      progress_per scoring = Ok self ->
    reachable self
| reachable_add_vocab self sentences self' :
    reachable self -> add_vocab self sentences = Ok self' ->
    reachable self'.

(** ** Notions used to state further properties *)

(** The pairs the greedy scan merges, in the order it merges them. *)
Fixpoint greedy_pairs (qualifies : string -> string -> bool)
    (s : list string) : list (string * string) :=
  match s with
  | [] => []
  | a :: tl =>
      match tl with
      | [] => []
      | b :: rest =>
          if qualifies a b
          then (a, b) :: greedy_pairs qualifies rest
          else greedy_pairs qualifies tl
      end
  end.

(** The body of the merging loop for a test [q] that cannot raise. *)
Definition greedy_step (q : string -> string -> bool)
    (j : string -> string -> string) (st : bool * list string)
    (p : string * string) : bool * list string :=
  if q p.1 p.2 && negb st.1
  then (true, st.2 ++ [j p.1 p.2])
  else (false, if st.1 then st.2 else st.2 ++ [p.1]).

(** The body of the exporting loop for a test [q] and a score [sc] that
    cannot raise. *)
Definition greedy_export_step {A : Type} (q : string -> string -> bool)
    (sc : string -> string -> A) (st : bool * list (string * string * A))
    (p : string * string) : bool * list (string * string * A) :=
  if q p.1 p.2 && negb st.1
  then (true, st.2 ++ [(p.1, p.2, sc p.1 p.2)])
  else (false, st.2).

(** The score of a pair on which the scoring function returns. *)
Definition score_of (self : Phrases) (word_a word_b : string) : pyfloat :=
  match pair_score self word_a word_b with
  | Ok score => score
  | Raise _ => NaN
  end.

(** The loop of [learn_vocab] when no progress report raises. *)
Definition learn_loop (sentences : list (list string)) (max_vocab_size : Z)
    (delimiter : string) : Z * gmap string Z * Z :=
  fold_left (learn_sentence max_vocab_size delimiter) sentences (1, ∅, 0).

(** The keys the counting of one sentence increments, one entry per
    increment: its tokens, then the compound keys of its adjacent pairs. *)
Definition counted_keys (delimiter : string) (sentence : list string)
  : list string :=
  let s := map any2utf8 sentence in
  s ++ map (fun bigram => str_join delimiter [bigram.1; bigram.2]) (bigrams s).

(** The counting of [learn_vocab] without the size check. *)
Definition count_all (delimiter : string) (sentences : list (list string))
  : gmap string Z * Z :=
  fold_left (count_sentence delimiter) sentences (∅, 0).

(** [k] without its first [n] bytes. *)
Fixpoint str_drop (n : nat) (k : string) : string :=
  match n, k with
  | O, _ => k
  | S _, EmptyString => EmptyString
  | S n', String _ k' => str_drop n' k'
  end.

(** Every count of the vocabulary is at least one. *)
Definition positive_counts (vocab : gmap string Z) : Prop :=
  forall k c, vocab !! k = Some c -> 1 <= c.

(** A float that is not above zero: a finite one that is not positive, or
    the negative infinity. *)
Definition nonpositive (x : pyfloat) : Prop :=
  match x with
  | Fin q => (q <= 0)%Q
  | NegInf => True
  | PosInf | NaN => False
  end.

(** A small trained model and the [Phraser] compiled from it, used to
    instantiate the theorems below. *)
Definition example_vocab : gmap string Z :=
  <["new" := 5]> (<["york" := 5]> (<["new_york" := 6]> ∅)).

Definition example_model : Phrases :=
  Model 5 (Fin (1 # 10)) 100 example_vocab 1 "_" 10000 100
    original_scorer_fn.

Definition example_phraser : Phraser :=
  MkPhraser (Fin (1 # 10)) 5 "_" original_scorer_fn
    (<[("new", "york") := (6, score_of example_model "new" "york")]> ∅).

(** * Theorems *)

(** Drops the helpers a goal does not mention, so that the decision
    procedures do not pull them into a proof. *)
Ltac forget_helpers :=
  try clear any2utf8; try clear to_unicode; try clear log;
  try clear prune_vocab.

(** C7: for nonzero [worda_count] and [wordb_count], the built-in default
    scoring function returns
    [(bigram_count - min_count) * len_vocab / (worda_count * wordb_count)],
    as an equation of exact rational arithmetic. *)
Theorem original_scorer_formula
    (worda_count wordb_count bigram_count len_vocab min_count
       corpus_word_count : Q) :
  ~ (worda_count == 0)%Q ->
  ~ (wordb_count == 0)%Q ->
  (original_scorer worda_count wordb_count bigram_count len_vocab min_count
     corpus_word_count
   == (bigram_count - min_count) * len_vocab / (worda_count * wordb_count))%Q.
Proof.
  intros Ha Hb. unfold original_scorer. field. split; assumption.
Qed.

Lemma original_scorer_formula_witness :
  (original_scorer 5 5 6 3 5 100 == (6 - 5) * 3 / (5 * 5))%Q.
Proof.
  apply (original_scorer_formula 5 5 6 3 5 100); discriminate.
Defined.

(** ** Single sentence or corpus *)

Lemma is_single_cons (peek : item) (rest : list item) :
  _is_single (peek :: rest) = (is_string peek, peek :: rest).
Proof. unfold _is_single; simpl. destruct (is_string peek); reflexivity. Qed.

Lemma tokens_of_strings (ws : list string) : tokens_of (map Str ws) = Some ws.
Proof.
  induction ws as [|w ws IH]; simpl; [reflexivity|]. rewrite IH. reflexivity.
Qed.


Lemma Phrases_getitem_sentence (self : Phrases) (sentence : list string) :
  Phrases_getitem self (map Str sentence)
  = as_sentence (Phrases_transform self sentence).
Proof.
  unfold Phrases_getitem.
  destruct sentence as [|w ws]; [reflexivity|].
  change (map Str (w :: ws)) with (Str w :: map Str ws).
  rewrite is_single_cons.
  change (Str w :: map Str ws) with (map Str (w :: ws)).
  cbn [is_string negb]. rewrite tokens_of_strings. reflexivity.
Qed.

Lemma Phraser_getitem_sentence (self : Phraser) (sentence : list string) :
  Phraser_getitem self (map Str sentence)
  = Ok (Sentence (Phraser_transform self sentence)).
Proof.
  unfold Phraser_getitem.
  destruct sentence as [|w ws]; [reflexivity|].
  change (map Str (w :: ws)) with (Str w :: map Str ws).
  rewrite is_single_cons.
  change (Str w :: map Str ws) with (map Str (w :: ws)).
  cbn [is_string negb]. rewrite tokens_of_strings. reflexivity.
Qed.

(** C10: the empty input is classified as a single sentence and both
    transforms return the empty token list for it; a non-empty input is
    classified by whether its first element is a string, and the sequence
    handed on is the whole input, the peeked element included: a sentence
    is transformed in full, a corpus is passed on in full. *)
Theorem is_single_dispatch :
  _is_single [] = (true, []) /\
  (forall self : Phrases, Phrases_getitem self [] = Ok (Sentence [])) /\
  (forall self : Phraser, Phraser_getitem self [] = Ok (Sentence [])) /\
  (forall (peek : item) (rest : list item),
      _is_single (peek :: rest) = (is_string peek, peek :: rest)) /\
  (forall (self : Phrases) (sentence : list string),
      Phrases_getitem self (map Str sentence)
      = as_sentence (Phrases_transform self sentence)) /\
  (forall (self : Phraser) (sentence : list string),
      Phraser_getitem self (map Str sentence)
      = Ok (Sentence (Phraser_transform self sentence))) /\
  (forall (self : Phrases) (d : list string) (rest : list item),
      Phrases_getitem self (Doc d :: rest) = Ok (Corpus (Doc d :: rest))) /\
  (forall (self : Phraser) (d : list string) (rest : list item),
      Phraser_getitem self (Doc d :: rest) = Ok (Corpus (Doc d :: rest))).
Proof.
  split; [reflexivity|].
  split; [intros self; reflexivity|].
  split; [intros self; reflexivity|].
  split; [apply is_single_cons|].
  split; [apply Phrases_getitem_sentence|].
  split; [apply Phraser_getitem_sentence|].
  split; intros self d rest; reflexivity.
Qed.

(** ** Loading *)

(** C9: [Phrases.load] gives a model without a [scoring] attribute the
    built-in default scorer, resolves the strings "default" and "npmi" to the
    two built-in scorers, and fails on any other string with an error whose
    message ends with that string. *)
Theorem load_resolves_scoring (loaded : unpickled) (s : string) :
  s <> "default" -> s <> "npmi" ->
  Phrases_load (set_scoring loaded None)
    = Ok (set_scoring loaded original_scorer_fn) /\
  Phrases_load (set_scoring loaded (Some (AttrStr "default")))
    = Ok (set_scoring loaded original_scorer_fn) /\
  Phrases_load (set_scoring loaded (Some (AttrStr "npmi")))
    = Ok (set_scoring loaded npmi_scorer_fn) /\
  Phrases_load (set_scoring loaded (Some (AttrStr s)))
    = Raise (ValueError
               ("failed to load Phrases model with unknown scoring setting "
                +:+ s)) /\
  sc_name original_scorer_fn <> sc_name npmi_scorer_fn.
Proof.
  intros Hd Hn.
  repeat split; try reflexivity; [|discriminate].
  unfold Phrases_load; simpl.
  apply String.eqb_neq in Hd. apply String.eqb_neq in Hn.
  rewrite Hd, Hn. reflexivity.
Qed.

(** ** Construction *)





(** ** Loops that may raise *)

Lemma fold_result_sound {A B : Type} (f : A -> B -> result A)
    (g : A -> B -> A) (l : list B) (a a' : A) :
  (forall st x st', f st x = Ok st' -> st' = g st x) ->
  fold_result f l a = Ok a' -> a' = fold_left g l a.
Proof.
  intros Hf. revert a. induction l as [|x l IH]; intros a; cbn.
  - intros H; injection H as <-. reflexivity.
  - destruct (f a x) as [st|e] eqn:Hx; [|discriminate].
    apply Hf in Hx as ->. apply IH.
Qed.

Lemma fold_result_total {A B : Type} (f : A -> B -> result A)
    (g : A -> B -> A) (l : list B) (a : A) :
  (forall st x, x ∈ l -> f st x = Ok (g st x)) ->
  fold_result f l a = Ok (fold_left g l a).
Proof.
  revert a. induction l as [|x l IH]; intros a Hf; cbn; [reflexivity|].
  rewrite Hf by left. apply IH. intros st y Hy. apply Hf. right. exact Hy.
Qed.

Lemma map_result_elem {A B : Type} (f : A -> result B) (l : list A)
    (ys : list B) :
  map_result f l = Ok ys ->
  (forall y, y ∈ ys -> exists x, x ∈ l /\ f x = Ok y) /\
  (forall x, x ∈ l -> exists y, y ∈ ys /\ f x = Ok y).
Proof.
  revert ys. induction l as [|x l IH]; intros ys; cbn.
  - intros H; injection H as <-.
    split; [intros y Hy; inversion Hy | intros x Hx; inversion Hx].
  - destruct (f x) as [y|e] eqn:Hx; [|discriminate].
    destruct (map_result f l) as [ys'|e]; [|discriminate].
    intros H; injection H as <-. destruct (IH ys' eq_refl) as [IH1 IH2].
    split.
    + intros y' Hy. apply elem_of_cons in Hy as [-> | Hy].
      * exists x. split; [left | exact Hx].
      * destruct (IH1 y' Hy) as [x' [Hin Hf]].
        exists x'. split; [right; exact Hin | exact Hf].
    + intros x' Hin. apply elem_of_cons in Hin as [-> | Hin].
      * exists y. split; [left | exact Hx].
      * destruct (IH2 x' Hin) as [y' [Hy Hf]].
        exists y'. split; [right; exact Hy | exact Hf].
Qed.

Lemma map_result_total {A B : Type} (f : A -> result B) (l : list A) :
  (forall x, x ∈ l -> exists y, f x = Ok y) ->
  exists ys, map_result f l = Ok ys.
Proof.
  induction l as [|x l IH]; intros Hf; cbn; [eexists; reflexivity|].
  destruct (Hf x) as [y ->]; [left|].
  destruct IH as [ys ->]; [intros x' Hin; apply Hf; right; exact Hin|].
  eexists; reflexivity.
Qed.

Lemma map_result_raises {A B : Type} (f : A -> result B) (l : list A)
    (e : exn) :
  map_result f l = Raise e -> exists x, x ∈ l /\ f x = Raise e.
Proof.
  induction l as [|x l IH]; cbn; [discriminate|].
  destruct (f x) as [y|e'] eqn:Hx.
  - destruct (map_result f l) as [ys|e']; [discriminate|].
    intros H; injection H as ->. destruct (IH eq_refl) as [x' [Hin Hf]].
    exists x'. split; [right; exact Hin | exact Hf].
  - intros H; injection H as ->. exists x. split; [left | exact Hx].
Qed.

(** ** The progress report *)

(** [learn_vocab] raises at its first sentence when [progress_per] is zero,
    and otherwise runs its loop to the end. *)
Lemma learn_vocab_eq (sentences : list (list string)) (max_vocab_size : Z)
    (delimiter : string) (progress_per : Z) :
  learn_vocab sentences max_vocab_size delimiter progress_per =
  match sentences with
  | [] => Ok (1, ∅, 0)
  | _ :: _ =>
      if progress_per =? 0 then Raise ZeroDivisionError
      else Ok (learn_loop sentences max_vocab_size delimiter)
  end.
Proof.
  unfold learn_vocab, learn_loop.
  destruct sentences as [|s ss]; [reflexivity|].
  destruct (progress_per =? 0) eqn:Hpp.
  - cbn. unfold learn_iteration. rewrite Hpp. reflexivity.
  - apply fold_result_total. intros st x _. unfold learn_iteration.
    rewrite Hpp. reflexivity.
Qed.

Lemma learn_vocab_ok (sentences : list (list string)) (max_vocab_size : Z)
    (delimiter : string) (progress_per : Z) :
  progress_per <> 0 ->
  learn_vocab sentences max_vocab_size delimiter progress_per
  = Ok (learn_loop sentences max_vocab_size delimiter).
Proof.
  intros Hpp. rewrite learn_vocab_eq. apply Z.eqb_neq in Hpp. rewrite Hpp.
  destruct sentences; reflexivity.
Qed.

Lemma learn_vocab_inv (sentences : list (list string)) (max_vocab_size : Z)
    (delimiter : string) (progress_per : Z) (learned : Z * gmap string Z * Z) :
  learn_vocab sentences max_vocab_size delimiter progress_per = Ok learned ->
  learned = learn_loop sentences max_vocab_size delimiter.
Proof.
  rewrite learn_vocab_eq. destruct sentences as [|s ss].
  - intros H; injection H as <-. reflexivity.
  - destruct (progress_per =? 0); [discriminate|].
    intros H; injection H as <-. reflexivity.
Qed.

Lemma add_vocab_inv (self : Phrases) (sentences : list (list string))
    (self' : Phrases) :
  add_vocab self sentences = Ok self' ->
  learn_vocab sentences (max_vocab_size self) (delimiter self)
    (progress_per self)
  = Ok (learn_loop sentences (max_vocab_size self) (delimiter self)) /\
  self' = merge_vocab self
            (learn_loop sentences (max_vocab_size self) (delimiter self)).
Proof.
  unfold add_vocab.
  destruct (learn_vocab _ _ _ _) as [learned|e] eqn:Hl; [|discriminate].
  intros H; injection H as <-.
  apply learn_vocab_inv in Hl as ->. split; reflexivity.
Qed.

Lemma add_vocab_ok (self : Phrases) (sentences : list (list string)) :
  progress_per self <> 0 ->
  add_vocab self sentences
  = Ok (merge_vocab self
          (learn_loop sentences (max_vocab_size self) (delimiter self))).
Proof.
  intros Hpp. unfold add_vocab. rewrite learn_vocab_ok by exact Hpp.
  reflexivity.
Qed.

Lemma configure_progress_per (min_count : Z) (threshold0 : pyfloat)
    (max_vocab_size0 : Z) (delimiter0 : string) (progress_per0 : Z)
    (scoring : scoring_arg) (self : Phrases) :
  Phrases_configure min_count threshold0 max_vocab_size0 delimiter0
    progress_per0 scoring = Ok self ->
  progress_per self = progress_per0 /\ threshold self = threshold0 /\
  min_reduce self = 1 /\ vocab self = ∅ /\ corpus_word_count self = 0.
Proof.
  unfold Phrases_configure.
  destruct (min_count <=? 0); [discriminate|].
  destruct (_ && _); [discriminate|].
  destruct (_ && _); [discriminate|].
  destruct (match scoring with ScoringStr _ => _ | ScoringFn _ => _ end)
    as [f|e]; [|discriminate].
  destruct (forallb _ _); [|discriminate].
  destruct (sc_pickle f); [|discriminate..].
  intros H; injection H as <-. repeat split.
Qed.


(** ** The greedy scan *)

Section GreedyLoop.

Variable q : string -> string -> bool.
Variable j : string -> string -> string.
Variable step : bool * list string -> string * string -> bool * list string.

Hypothesis step_eq : forall last_bigram new_s word_a word_b,
  step (last_bigram, new_s) (word_a, word_b) =
  if q word_a word_b && negb last_bigram
  then (true, new_s ++ [j word_a word_b])
  else (false, if last_bigram then new_s else new_s ++ [word_a]).

Lemma last_cons_cons (a b : string) (s : list string) :
  last (a :: b :: s) = last (b :: s).
Proof. reflexivity. Qed.

Lemma emit_last_cons (a b : string) (s : list string)
    (st : bool * list string) :
  emit_last (a :: b :: s) st = emit_last (b :: s) st.
Proof. unfold emit_last. rewrite last_cons_cons. reflexivity. Qed.

Lemma greedy_loop_aux (s : list string) :
  (forall new_s,
      emit_last s (fold_left step (bigrams s) (false, new_s))
      = new_s ++ greedy_merge q j s) /\
  (forall a new_s,
      emit_last (a :: s) (fold_left step (bigrams (a :: s)) (false, new_s))
      = new_s ++ greedy_merge q j (a :: s)).
Proof using step_eq.
  induction s as [|b s [IH1 IH2]].
  - split; intros; simpl; [rewrite app_nil_r|]; reflexivity.
  - split; [exact (IH2 b)|].
    intros a new_s.
    change (bigrams (a :: b :: s)) with ((a, b) :: bigrams (b :: s)).
    simpl fold_left. rewrite step_eq, andb_true_r, emit_last_cons.
    destruct (q a b) eqn:Hq.
    + simpl greedy_merge. rewrite Hq.
      destruct s as [|c s].
      * reflexivity.
      * change (bigrams (b :: c :: s)) with ((b, c) :: bigrams (c :: s)).
        simpl fold_left. rewrite step_eq, andb_false_r, emit_last_cons.
        rewrite IH1, <- app_assoc. reflexivity.
    + simpl greedy_merge. rewrite Hq.
      rewrite IH2, <- app_assoc. reflexivity.
Qed.

Lemma greedy_loop (s : list string) :
  emit_last s (fold_left step (bigrams s) (false, [])) = greedy_merge q j s.
Proof using step_eq. apply (proj1 (greedy_loop_aux s) []). Qed.

End GreedyLoop.

(** ** The transform of the full model *)

Lemma has_key_true {K V : Type} `{Countable K} (k : K) (m : gmap K V) :
  has_key k m = true <-> is_Some (m !! k).
Proof.
  unfold has_key. destruct (m !! k) as [v|].
  - split; [intros _; exists v; reflexivity | reflexivity].
  - split; [discriminate | intros [v Hv]; discriminate].
Qed.

Lemma min_count_le (n c : Z) :
  Qle_bool (inject_Z n) (float_of_int c) = true <-> n <= c.
Proof. unfold float_of_int. rewrite Qle_bool_iff, <- Zle_Qle. reflexivity. Qed.


Lemma greedy_step_eq (q : string -> string -> bool)
    (j : string -> string -> string) (last_bigram : bool)
    (new_s : list string) (word_a word_b : string) :
  greedy_step q j (last_bigram, new_s) (word_a, word_b) =
  if q word_a word_b && negb last_bigram
  then (true, new_s ++ [j word_a word_b])
  else (false, if last_bigram then new_s else new_s ++ [word_a]).
Proof. reflexivity. Qed.

(** The test of a pair: the scoring function is called when the three keys
    are in the vocabulary and the preceding pair was not merged. *)
Lemma candidate_eq (self : Phrases) (last_bigram : bool)
    (word_a word_b : string) :
  candidate self last_bigram word_a word_b =
  let bigram_word := str_join (delimiter self) [word_a; word_b] in
  if has_key word_a (vocab self) && has_key word_b (vocab self)
     && negb last_bigram && has_key bigram_word (vocab self)
  then match pair_score self word_a word_b with
       | Raise e => Raise e
       | Ok score =>
           if float_gt score (threshold self) &&
              Qle_bool (inject_Z (min_count self))
                (float_of_int (count_of (vocab self) bigram_word))
           then Ok (Some (bigram_word, score))
           else Ok None
       end
  else Ok None.
Proof.
  unfold candidate, pair_score. cbv zeta.
  destruct (_ && negb last_bigram); [|reflexivity].
  destruct (has_key _ (vocab self)); reflexivity.
Qed.

(** The conditions under which the full model merges a pair that follows an
    unmerged one. *)
Lemma qualifies_iff (self : Phrases) (word_a word_b : string) :
  qualifies self word_a word_b = true <->
  is_Some (vocab self !! word_a) /\
  is_Some (vocab self !! word_b) /\
  is_Some (vocab self !! str_join (delimiter self) [word_a; word_b]) /\
  score_above (pair_score self word_a word_b) (threshold self) = true /\
  min_count self <=
    count_of (vocab self) (str_join (delimiter self) [word_a; word_b]).
Proof.
  unfold qualifies. rewrite candidate_eq. cbv zeta.
  rewrite <- !has_key_true, <- min_count_le.
  destruct (has_key word_a (vocab self)); simpl;
    [|split; [discriminate | intros [H _]; discriminate]].
  destruct (has_key word_b (vocab self)); simpl;
    [|split; [discriminate | intros [_ [H _]]; discriminate]].
  destruct (has_key _ (vocab self)); simpl;
    [|split; [discriminate | intros [_ [_ [H _]]]; discriminate]].
  destruct (pair_score self word_a word_b) as [score|e]; simpl;
    [|split; [discriminate | intros [_ [_ [_ [H _]]]]; discriminate]].
  destruct (float_gt score (threshold self)); simpl;
    [|split; [discriminate | intros [_ [_ [_ [H _]]]]; discriminate]].
  destruct (Qle_bool _ _); simpl; [forget_helpers; tauto|].
  split; [discriminate | intros [_ [_ [_ [_ H]]]]; discriminate].
Qed.

Lemma candidate_last (self : Phrases) (word_a word_b : string) :
  candidate self true word_a word_b = Ok None.
Proof. unfold candidate. rewrite andb_false_r. reflexivity. Qed.

(** A test that returns says whether the pair qualifies, and emits the
    compound key with the score of the pair. *)
Lemma candidate_ok (self : Phrases) (word_a word_b : string)
    (c : option (string * pyfloat)) :
  candidate self false word_a word_b = Ok c ->
  c = if qualifies self word_a word_b
      then Some (str_join (delimiter self) [word_a; word_b],
                 score_of self word_a word_b)
      else None.
Proof.
  intros Hc. unfold qualifies, score_of. rewrite Hc.
  rewrite candidate_eq in Hc. cbv zeta in Hc.
  destruct (_ && has_key _ (vocab self));
    [|injection Hc as <-; reflexivity].
  destruct (pair_score self word_a word_b) as [score|e]; [|discriminate].
  destruct (_ && _); injection Hc as <-; reflexivity.
Qed.

(** The test raises exactly when the scoring function is called and
    raises. *)
Lemma candidate_raises (self : Phrases) (word_a word_b : string) (e : exn) :
  candidate self false word_a word_b = Raise e <->
  is_Some (vocab self !! word_a) /\
  is_Some (vocab self !! word_b) /\
  is_Some (vocab self !! str_join (delimiter self) [word_a; word_b]) /\
  pair_score self word_a word_b = Raise e.
Proof.
  rewrite candidate_eq. cbv zeta. rewrite <- !has_key_true.
  destruct (has_key word_a (vocab self)); simpl;
    [|split; [discriminate | intros [H _]; discriminate]].
  destruct (has_key word_b (vocab self)); simpl;
    [|split; [discriminate | intros [_ [H _]]; discriminate]].
  destruct (has_key _ (vocab self)); simpl;
    [|split; [discriminate | intros [_ [_ [H _]]]; discriminate]].
  destruct (pair_score self word_a word_b) as [score|e'].
  - destruct (_ && _); (split; [discriminate|]);
      intros [_ [_ [_ H]]]; discriminate.
  - split; [intros H; injection H as ->; auto|].
    intros [_ [_ [_ H]]]. injection H as ->. reflexivity.
Qed.

Lemma candidate_defined (self : Phrases) (word_a word_b : string) :
  defined_at self word_a word_b <->
  exists c, candidate self false word_a word_b = Ok c.
Proof.
  split.
  - intros Hdef.
    destruct (candidate self false word_a word_b) as [c|e] eqn:Hc;
      [exists c; reflexivity|].
    apply candidate_raises in Hc as [Ha [Hb [Hab Hsc]]].
    destruct (Hdef Ha Hb Hab) as [score Hs]. congruence.
  - intros [c Hc] Ha Hb Hab.
    destruct (pair_score self word_a word_b) as [score|e] eqn:Hs;
      [exists score; reflexivity|].
    assert (Hr : candidate self false word_a word_b = Raise e)
      by (apply candidate_raises; auto).
    congruence.
Qed.

Lemma getitem_step_sound (self : Phrases) (st : bool * list string)
    (p : string * string) (st' : bool * list string) :
  getitem_step self st p = Ok st' ->
  st' = greedy_step (qualifies self)
          (fun word_a word_b => str_join (delimiter self) [word_a; word_b])
          st p.
Proof.
  destruct st as [last_bigram new_s], p as [word_a word_b].
  rewrite greedy_step_eq. unfold getitem_step. destruct last_bigram.
  - rewrite candidate_last, andb_false_r.
    intros H; injection H as <-. reflexivity.
  - rewrite andb_true_r.
    destruct (candidate self false word_a word_b) as [c|e] eqn:Hc;
      [|discriminate].
    apply candidate_ok in Hc as ->.
    destruct (qualifies self word_a word_b);
      intros H; injection H as <-; reflexivity.
Qed.

Lemma getitem_step_defined (self : Phrases) (last_bigram : bool)
    (new_s : list string) (word_a word_b : string) :
  (last_bigram = false -> defined_at self word_a word_b) ->
  getitem_step self (last_bigram, new_s) (word_a, word_b)
  = Ok (greedy_step (qualifies self)
          (fun word_a word_b => str_join (delimiter self) [word_a; word_b])
          (last_bigram, new_s) (word_a, word_b)).
Proof.
  intros Hdef.
  destruct (getitem_step self (last_bigram, new_s) (word_a, word_b))
    as [st'|e] eqn:Hstep.
  - apply getitem_step_sound in Hstep as ->. reflexivity.
  - exfalso. unfold getitem_step in Hstep. destruct last_bigram.
    + rewrite candidate_last in Hstep. discriminate.
    + apply candidate_defined in Hdef as [c Hc]; [|reflexivity].
      rewrite Hc in Hstep. destruct c as [[w sc]|]; discriminate.
Qed.

Lemma getitem_step_raises (self : Phrases) (new_s : list string)
    (word_a word_b : string) (e : exn) :
  is_Some (vocab self !! word_a) ->
  is_Some (vocab self !! word_b) ->
  is_Some (vocab self !! str_join (delimiter self) [word_a; word_b]) ->
  pair_score self word_a word_b = Raise e ->
  getitem_step self (false, new_s) (word_a, word_b) = Raise e.
Proof.
  intros Ha Hb Hab Hsc. unfold getitem_step.
  assert (Hr : candidate self false word_a word_b = Raise e)
    by (apply candidate_raises; auto).
  rewrite Hr. reflexivity.
Qed.

(** A transform that returns has returned the greedy merge. *)
Lemma Phrases_transform_sound (self : Phrases) (sentence out : list string) :
  Phrases_transform self sentence = Ok out ->
  out = map to_unicode
          (greedy_merge (qualifies self)
             (fun word_a word_b => str_join (delimiter self) [word_a; word_b])
             (map any2utf8 sentence)).
Proof.
  unfold Phrases_transform.
  destruct (fold_result _ _ _) as [st|e] eqn:Hfold; [|discriminate].
  apply (fold_result_sound _ _ _ _ _ (getitem_step_sound self)) in Hfold.
  rewrite <- (greedy_loop (qualifies self) _ _
                (greedy_step_eq (qualifies self) _)).
  rewrite <- Hfold. unfold emit_last. destruct st as [last_bigram new_s].
  intros H; injection H as <-. reflexivity.
Qed.

(** The transform returns when the scoring function returns on the adjacent
    pairs of the sentence. *)
Lemma Phrases_transform_total (self : Phrases) (sentence : list string) :
  (forall word_a word_b,
      (word_a, word_b) ∈ bigrams (map any2utf8 sentence) ->
      defined_at self word_a word_b) ->
  Phrases_transform self sentence
  = Ok (map to_unicode
          (greedy_merge (qualifies self)
             (fun word_a word_b => str_join (delimiter self) [word_a; word_b])
             (map any2utf8 sentence))).
Proof.
  intros Hdef.
  destruct (Phrases_transform self sentence) as [out|e] eqn:Ht.
  - apply Phrases_transform_sound in Ht as ->. reflexivity.
  - exfalso. unfold Phrases_transform in Ht.
    rewrite (fold_result_total _
               (greedy_step (qualifies self)
                  (fun word_a word_b =>
                     str_join (delimiter self) [word_a; word_b]))) in Ht.
    + destruct (fold_left _ _ _). discriminate.
    + intros [last_bigram new_s] [word_a word_b] Hin.
      apply getitem_step_defined. intros _. apply Hdef. exact Hin.
Qed.

Lemma Phrases_transform_three (self : Phrases) (a b c : string) :
  defined_at self (any2utf8 a) (any2utf8 b) ->
  Phrases_transform self [a; b; c] =
  if qualifies self (any2utf8 a) (any2utf8 b)
  then Ok [to_unicode (str_join (delimiter self) [any2utf8 a; any2utf8 b]);
           to_unicode (any2utf8 c)]
  else match Phrases_transform self [b; c] with
       | Raise e => Raise e
       | Ok rest => Ok (to_unicode (any2utf8 a) :: rest)
       end.
Proof.
  intros Hdef. unfold Phrases_transform.
  change (bigrams (map any2utf8 [a; b; c]))
    with [(any2utf8 a, any2utf8 b); (any2utf8 b, any2utf8 c)].
  change (bigrams (map any2utf8 [b; c])) with [(any2utf8 b, any2utf8 c)].
  cbn [fold_result].
  rewrite (getitem_step_defined self false [] _ _ (fun _ => Hdef)).
  rewrite greedy_step_eq, andb_true_r.
  destruct (qualifies self (any2utf8 a) (any2utf8 b)).
  - unfold getitem_step. rewrite candidate_last. reflexivity.
  - unfold getitem_step.
    destruct (candidate self false (any2utf8 b) (any2utf8 c))
      as [[[w sc]|]|e]; reflexivity.
Qed.

(** C1: in the loop of [Phrases.__getitem__] a pair is replaced by its
    compound token exactly when both words and the compound key are in the
    vocabulary, the score exceeds the threshold, the count of the compound
    key is at least [min_count], and the preceding pair was not merged; a
    pair that follows a merged one emits nothing, any other unmerged pair
    emits its first word.  The scoring function is called on a pair that
    does not follow a merged one and has its three keys in the vocabulary;
    if it raises there, so does the loop.  Hence a transform that returns
    has returned the greedy left-to-right non-overlapping merge, whose last
    token is kept when no merge consumed it; it returns when the scoring
    function returns on the pairs of the sentence; and on [[a; b; c]] a
    qualifying [(a, b)] gives [[a_b; c]] whether or not [(b, c)]
    qualifies. *)
Theorem Phrases_getitem_greedy (self : Phrases) :
  (forall (last_bigram : bool) (new_s : list string) (word_a word_b : string),
      let joined := str_join (delimiter self) [word_a; word_b] in
      let merge :=
        bool_decide
          (is_Some (vocab self !! word_a) /\
           is_Some (vocab self !! word_b) /\
           is_Some (vocab self !! joined) /\
           score_above (pair_score self word_a word_b) (threshold self)
           = true /\
           min_count self <= count_of (vocab self) joined /\
           last_bigram = false) in
      (last_bigram = false -> defined_at self word_a word_b) ->
      getitem_step self (last_bigram, new_s) (word_a, word_b) =
      Ok (merge,
          if merge then new_s ++ [joined]
          else if last_bigram then new_s else new_s ++ [word_a])) /\
  (forall (new_s : list string) (word_a word_b : string) (e : exn),
      is_Some (vocab self !! word_a) ->
      is_Some (vocab self !! word_b) ->
      is_Some (vocab self !! str_join (delimiter self) [word_a; word_b]) ->
      pair_score self word_a word_b = Raise e ->
      getitem_step self (false, new_s) (word_a, word_b) = Raise e) /\
  (forall sentence out : list string,
      Phrases_transform self sentence = Ok out ->
      out = map to_unicode
              (greedy_merge (qualifies self)
                 (fun word_a word_b =>
                    str_join (delimiter self) [word_a; word_b])
                 (map any2utf8 sentence))) /\
  (forall sentence : list string,
      (forall word_a word_b,
          (word_a, word_b) ∈ bigrams (map any2utf8 sentence) ->
          defined_at self word_a word_b) ->
      Phrases_transform self sentence =
      Ok (map to_unicode
            (greedy_merge (qualifies self)
               (fun word_a word_b =>
                  str_join (delimiter self) [word_a; word_b])
               (map any2utf8 sentence)))) /\
  (forall a b c : string,
      defined_at self (any2utf8 a) (any2utf8 b) ->
      Phrases_transform self [a; b; c] =
      if qualifies self (any2utf8 a) (any2utf8 b)
      then Ok [to_unicode
                 (str_join (delimiter self) [any2utf8 a; any2utf8 b]);
               to_unicode (any2utf8 c)]
      else match Phrases_transform self [b; c] with
           | Raise e => Raise e
           | Ok rest => Ok (to_unicode (any2utf8 a) :: rest)
           end) /\
  (forall sentence : list string,
      Phrases_getitem self (map Str sentence)
      = as_sentence (Phrases_transform self sentence)).
Proof.
  split; [|split; [|split; [|split; [|split]]]].
  - intros last_bigram new_s word_a word_b joined merge Hdef.
    rewrite getitem_step_defined by exact Hdef. rewrite greedy_step_eq.
    assert (Hm : merge = qualifies self word_a word_b && negb last_bigram).
    { subst merge joined. apply eq_true_iff_eq.
      rewrite bool_decide_eq_true, andb_true_iff, negb_true_iff,
        qualifies_iff.
      forget_helpers. tauto. }
    rewrite <- Hm. destruct merge; reflexivity.
  - apply getitem_step_raises.
  - apply Phrases_transform_sound.
  - apply Phrases_transform_total.
  - apply Phrases_transform_three.
  - apply Phrases_getitem_sentence.
Qed.

(** ** The transform of the compiled model *)

Lemma phraser_step_eq (self : Phraser) (last_bigram : bool)
    (new_s : list string) (word_a word_b : string) :
  phraser_step self (last_bigram, new_s) (word_a, word_b) =
  if phraser_qualifies self word_a word_b && negb last_bigram
  then (true, new_s ++ [str_join (phraser_delimiter self) [word_a; word_b]])
  else (false, if last_bigram then new_s else new_s ++ [word_a]).
Proof. reflexivity. Qed.

Lemma Phraser_transform_eq (self : Phraser) (sentence : list string) :
  Phraser_transform self sentence =
  map to_unicode
    (greedy_merge (phraser_qualifies self)
       (fun word_a word_b =>
          str_join (phraser_delimiter self) [word_a; word_b])
       (map any2utf8 sentence)).
Proof.
  unfold Phraser_transform.
  rewrite <- (greedy_loop (phraser_qualifies self) _ (phraser_step self)
                (phraser_step_eq self)).
  unfold emit_last.
  destruct (fold_left _ _ _) as [last_bigram new_s]. reflexivity.
Qed.

(** When the threshold is not below the sentinel score [-1] of an absent
    pair, the compiled model merges exactly the pairs that are keys of
    [phrasegrams] with a stored score above the threshold. *)
Lemma phraser_qualifies_iff (self : Phraser) (word_a word_b : string) :
  float_gt (Fin (-1)) (phraser_threshold self) = false ->
  phraser_qualifies self word_a word_b = true <->
  exists count score,
    phrasegrams self !! (word_a, word_b) = Some (count, score) /\
    float_gt score (phraser_threshold self) = true.
Proof.
  intros Hsentinel. unfold phraser_qualifies, stored_score.
  destruct (phrasegrams self !! (word_a, word_b)) as [[count score]|].
  - simpl. split.
    + intros H. exists count, score. auto.
    + intros [c [sc [Heq H]]]. inversion Heq; subst. exact H.
  - change (default (-1, Fin (-1)) None).2 with (Fin (-1)).
    rewrite Hsentinel. split; [discriminate|].
    intros [c [sc [Heq _]]]. discriminate.
Qed.

Lemma float_gt_PosInf (x : pyfloat) : float_gt x PosInf = false.
Proof. destruct x; reflexivity. Qed.

Lemma greedy_merge_never (joined : string -> string -> string)
    (s : list string) :
  greedy_merge (fun _ _ => false) joined s = s.
Proof.
  induction s as [|a s IH]; [reflexivity|].
  destruct s as [|b s]; [reflexivity|].
  simpl in *. rewrite IH. reflexivity.
Qed.

Lemma greedy_merge_ext (q q' : string -> string -> bool)
    (joined : string -> string -> string) (s : list string) :
  (forall a b, q a b = q' a b) ->
  greedy_merge q joined s = greedy_merge q' joined s.
Proof.
  intros Hq.
  assert (H : greedy_merge q joined s = greedy_merge q' joined s /\
              forall a, greedy_merge q joined (a :: s)
                        = greedy_merge q' joined (a :: s)).
  { induction s as [|b s [IH1 IH2]].
    - split; reflexivity.
    - split; [apply IH2|]. intros a. simpl. rewrite <- Hq.
      destruct (q a b).
      + f_equal. exact IH1.
      + f_equal. apply (IH2 b). }
  apply H.
Qed.


Lemma merge_vocab_settings (self : Phrases) (learned : Z * gmap string Z * Z) :
  threshold (merge_vocab self learned) = threshold self /\
  max_vocab_size (merge_vocab self learned) = max_vocab_size self /\
  delimiter (merge_vocab self learned) = delimiter self /\
  min_count (merge_vocab self learned) = min_count self /\
  scoring (merge_vocab self learned) = scoring self /\
  progress_per (merge_vocab self learned) = progress_per self.
Proof.
  unfold merge_vocab. destruct learned as [[mr v] tw].
  destruct (len (vocab self) >? 0); [|repeat split].
  destruct (len _ >? _); repeat split.
Qed.

Lemma add_vocab_threshold (self : Phrases) (sentences : list (list string))
    (self' : Phrases) :
  add_vocab self sentences = Ok self' -> threshold self' = threshold self.
Proof.
  intros H. apply add_vocab_inv in H as [_ ->].
  apply merge_vocab_settings.
Qed.

Lemma configure_threshold (min_count : Z) (threshold0 : pyfloat)
    (max_vocab_size : Z) (delimiter : string) (progress_per : Z)
    (scoring : scoring_arg) (self : Phrases) :
  Phrases_configure min_count threshold0 max_vocab_size delimiter
    progress_per scoring = Ok self ->
  threshold self = threshold0 /\ min_reduce self = 1 /\ vocab self = ∅.
Proof.
  unfold Phrases_configure.
  destruct (min_count <=? 0); [discriminate|].
  destruct (_ && _); [discriminate|].
  destruct (_ && _); [discriminate|].
  destruct (match scoring with ScoringStr _ => _ | ScoringFn _ => _ end)
    as [f|e]; [|discriminate].
  destruct (forallb _ _); [|discriminate].
  destruct (sc_pickle f); [|discriminate..].
  intros H; inversion H; subst; simpl. auto.
Qed.


Lemma init_threshold (sentences : option (list (list string)))
    (min_count : Z) (threshold0 : pyfloat) (max_vocab_size : Z)
    (delimiter : string) (progress_per : Z) (scoring : scoring_arg)
    (self : Phrases) :
  Phrases_init sentences min_count threshold0 max_vocab_size delimiter
    progress_per scoring = Ok self ->
  threshold self = threshold0.
Proof.
  unfold Phrases_init.
  destruct (Phrases_configure _ _ _ _ _ _) as [self0|e] eqn:Hc;
    [|discriminate].
  apply configure_threshold in Hc as [Hth _].
  destruct sentences as [ss|]; intros H.
  - apply add_vocab_threshold in H. congruence.
  - injection H as <-. exact Hth.
Qed.

Lemma Phraser_init_inv (phrases_model : Phrases) (phraser : Phraser) :
  Phraser_init phrases_model = Ok phraser ->
  exists corpus phrases,
    pseudocorpus (vocab phrases_model) (delimiter phrases_model) = Ok corpus /\
    export_phrases_as_tuples phrases_model corpus = Ok phrases /\
    phraser_threshold phraser = threshold phrases_model /\
    phraser_min_count phraser = min_count phrases_model /\
    phraser_delimiter phraser = delimiter phrases_model /\
    phraser_scoring phraser = scoring phrases_model /\
    phrasegrams phraser
    = fold_left (add_phrasegram phrases_model (delimiter phrases_model))
        phrases ∅.
Proof.
  unfold Phraser_init.
  destruct (pseudocorpus _ _) as [corpus|e]; [|discriminate].
  destruct (export_phrases_as_tuples _ _) as [phrases|e] eqn:Hexp;
    [|discriminate].
  intros H; injection H as <-. exists corpus, phrases.
  split; [reflexivity|]. split; [exact Hexp|]. repeat split; reflexivity.
Qed.

Lemma Phraser_init_threshold (self : Phrases) (phraser : Phraser) :
  Phraser_init self = Ok phraser ->
  phraser_threshold phraser = threshold self.
Proof.
  intros H.
  apply Phraser_init_inv in H as [corpus [phrases [_ [_ [H _]]]]]. exact H.
Qed.

(** C6: a [Phraser] compiled from a model constructed with threshold
    [+infinity], whatever it was trained on, returns every sentence
    unchanged (given that decoding undoes the encoding of tokens). *)
Theorem Phraser_infinite_threshold
    (sentences : option (list (list string))) (min_count max_vocab_size : Z)
    (delimiter : string) (progress_per : Z) (scoring : scoring_arg)
    (self : Phrases) (phraser : Phraser) (sentence : list string) :
  (forall w, to_unicode (any2utf8 w) = w) ->
  Phrases_init sentences min_count PosInf max_vocab_size delimiter
    progress_per scoring = Ok self ->
  Phraser_init self = Ok phraser ->
  Phraser_transform phraser sentence = sentence.
Proof.
  intros Hround Hinit Hphraser.
  apply init_threshold in Hinit.
  apply Phraser_init_threshold in Hphraser.
  rewrite Phraser_transform_eq.
  rewrite (greedy_merge_ext _ (fun _ _ => false)).
  - rewrite greedy_merge_never, map_map.
    induction sentence as [|w ws IH]; simpl; [reflexivity|].
    rewrite Hround, IH. reflexivity.
  - intros a b. unfold phraser_qualifies.
    rewrite Hphraser, Hinit. apply float_gt_PosInf.
Qed.
(** ** Counting *)

Lemma count_of_add_count (k' : string) (n : Z) (vocab : gmap string Z)
    (k : string) :
  count_of (add_count k' n vocab) k
  = count_of vocab k + (if decide (k' = k) then n else 0).
Proof.
  unfold add_count, count_of. destruct (decide (k' = k)) as [-> | Hne].
  - rewrite lookup_insert_eq. reflexivity.
  - rewrite lookup_insert_ne by assumption. simpl. lia.
Qed.

Lemma occurrences_cons (k x : string) (l : list string) :
  occurrences k (x :: l)
  = (if decide (x = k) then 1 else 0) + occurrences k l.
Proof.
  unfold occurrences. rewrite filter_cons.
  destruct (decide (x = k)); simpl length; lia.
Qed.

Lemma occurrences_nil (k : string) : occurrences k [] = 0.
Proof. reflexivity. Qed.

Lemma count_bigrams_fold (delimiter : string) (bs : list (string * string))
    (vocab : gmap string Z) (total_words : Z) (k : string) :
  let st := fold_left (count_bigram delimiter) bs (vocab, total_words) in
  count_of st.1 k
  = count_of vocab k + occurrences k (map fst bs)
    + occurrences k
        (map (fun bigram => str_join delimiter [bigram.1; bigram.2]) bs) /\
  st.2 = total_words + Z.of_nat (length bs).
Proof.
  revert vocab total_words.
  induction bs as [|[a b] bs IH]; intros vocab total_words.
  - simpl. rewrite !occurrences_nil. split; lia.
  - cbv zeta.
    change (fold_left (count_bigram delimiter) ((a, b) :: bs)
              (vocab, total_words))
      with (fold_left (count_bigram delimiter) bs
              (add_count (str_join delimiter [a; b]) 1 (add_count a 1 vocab),
               total_words + 1)).
    destruct (IH (add_count (str_join delimiter [a; b]) 1
                    (add_count a 1 vocab)) (total_words + 1))
      as [Hc Ht].
    rewrite Hc, Ht, !count_of_add_count.
    change (map fst ((a, b) :: bs)) with (a :: map fst bs).
    change (map (fun bigram : string * string =>
                   str_join delimiter [bigram.1; bigram.2]) ((a, b) :: bs))
      with (str_join delimiter [a; b]
            :: map (fun bigram : string * string =>
                      str_join delimiter [bigram.1; bigram.2]) bs). rewrite !occurrences_cons. simpl length.
    destruct (decide (a = k)), (decide (str_join delimiter [a; b] = k));
      split; lia.
Qed.

Lemma bigrams_length (s : list string) :
  Z.of_nat (length (bigrams s)) + Z.of_nat (length (option_list (last s)))
  = Z.of_nat (length s).
Proof.
  unfold bigrams. destruct s as [|a s]; [reflexivity|].
  assert (H : last (a :: s) <> None).
  { rewrite last_None. discriminate. }
  destruct (last (a :: s)) as [t|]; [|contradiction].
  rewrite length_zip.
  change (length (tail (a :: s))) with (length s).
  change (length (option_list (Some t))) with 1%nat.
  rewrite length_cons. lia.
Qed.

Lemma count_sentence_eq (delimiter : string) (vocab : gmap string Z)
    (total_words : Z) (sentence : list string) (k : string) :
  let s := map any2utf8 sentence in
  let st := count_sentence delimiter (vocab, total_words) sentence in
  count_of st.1 k
  = count_of vocab k + occurrences k (map fst (bigrams s))
    + occurrences k
        (map (fun bigram => str_join delimiter [bigram.1; bigram.2])
           (bigrams s))
    + occurrences k (option_list (last s)) /\
  st.2 = total_words + Z.of_nat (length (bigrams s))
         + Z.of_nat (length (option_list (last s))).
Proof.
  intros s st. subst st. unfold count_sentence. fold s.
  pose proof (count_bigrams_fold delimiter (bigrams s) vocab total_words k)
    as H.
  cbv zeta in H.
  destruct (fold_left _ (bigrams s) _) as [v t]. simpl in H.
  destruct H as [Hc Ht].
  destruct (last s) as [word|]; simpl.
  - rewrite count_of_add_count, occurrences_cons, occurrences_nil, Hc, Ht.
    split; lia.
  - rewrite occurrences_nil, Hc, Ht. split; lia.
Qed.

Lemma learn_sentence_cases (max_vocab_size : Z) (delimiter : string)
    (min_reduce : Z) (vocab : gmap string Z) (total_words : Z)
    (sentence : list string) :
  let counted := count_sentence delimiter (vocab, total_words) sentence in
  learn_sentence max_vocab_size delimiter (min_reduce, vocab, total_words)
    sentence
  = if decide (max_vocab_size < len counted.1)
    then (min_reduce + 1, prune_vocab counted.1 min_reduce, counted.2)
    else (min_reduce, counted.1, counted.2).
Proof.
  intros counted. subst counted. unfold learn_sentence.
  destruct (count_sentence _ _ _) as [v t]. simpl.
  destruct (decide (max_vocab_size < len v)) as [Hgt | Hle].
  - apply Z.ltb_lt in Hgt. rewrite <- Z.gtb_ltb in Hgt. rewrite Hgt.
    reflexivity.
  - destruct (len v >? max_vocab_size) eqn:Hgt; [|reflexivity].
    rewrite Z.gtb_ltb, Z.ltb_lt in Hgt. contradiction.
Qed.

Lemma learn_sentence_total (max_vocab_size : Z) (delimiter : string)
    (min_reduce : Z) (vocab : gmap string Z) (total_words : Z)
    (sentence : list string) :
  (learn_sentence max_vocab_size delimiter (min_reduce, vocab, total_words)
     sentence).2
  = total_words + Z.of_nat (length sentence).
Proof.
  unfold learn_sentence.
  pose proof (count_sentence_eq delimiter vocab total_words sentence "")
    as H.
  cbv zeta in H. destruct H as [_ Ht].
  destruct (count_sentence _ _ _) as [v t]. simpl in Ht.
  rewrite <- Z.add_assoc, bigrams_length, length_map in Ht.
  destruct (len v >? max_vocab_size); simpl; exact Ht.
Qed.

Lemma learn_fold_total (max_vocab_size : Z) (delimiter : string)
    (sentences : list (list string)) (st : Z * gmap string Z * Z) :
  (fold_left (learn_sentence max_vocab_size delimiter) sentences st).2
  = st.2 + tokens_in sentences.
Proof.
  revert st. induction sentences as [|s ss IH]; intros [[mr v] t].
  - unfold tokens_in. simpl. lia.
  - change (fold_left (learn_sentence max_vocab_size delimiter) (s :: ss)
              (mr, v, t))
      with (fold_left (learn_sentence max_vocab_size delimiter) ss
              (learn_sentence max_vocab_size delimiter (mr, v, t) s)).
    rewrite IH, learn_sentence_total.
    unfold tokens_in. simpl concat. rewrite length_app. simpl snd. lia.
Qed.

(** C3 (amended): counting one sentence adds to the count of every key the
    number of pairs it starts, the number of pairs whose compound key it is,
    and one if it is the final token; the running total grows by one per
    pair and by one more for the final token.  An iteration of [learn_vocab]
    is this counting followed by the size check, and [learn_vocab], when
    [progress_per] is not zero or there is no sentence, returns the number
    of tokens of its input as the total word count; with a [progress_per] of
    zero it raises at the first sentence. *)
Theorem learn_vocab_counts :
  (forall (delimiter : string) (vocab : gmap string Z) (total_words : Z)
          (sentence : list string) (k : string),
      let s := map any2utf8 sentence in
      let st := count_sentence delimiter (vocab, total_words) sentence in
      count_of st.1 k
      = count_of vocab k + occurrences k (map fst (bigrams s))
        + occurrences k
            (map (fun bigram => str_join delimiter [bigram.1; bigram.2])
               (bigrams s))
        + occurrences k (option_list (last s)) /\
      st.2 = total_words + Z.of_nat (length (bigrams s))
             + Z.of_nat (length (option_list (last s))) /\
      st.2 = total_words + Z.of_nat (length sentence)) /\
  (forall max_vocab_size delimiter min_reduce vocab total_words sentence,
      let counted := count_sentence delimiter (vocab, total_words) sentence in
      learn_sentence max_vocab_size delimiter (min_reduce, vocab, total_words)
        sentence
      = if decide (max_vocab_size < len counted.1)
        then (min_reduce + 1, prune_vocab counted.1 min_reduce, counted.2)
        else (min_reduce, counted.1, counted.2)) /\
  (forall max_vocab_size delimiter progress_per st sentence,
      learn_iteration max_vocab_size delimiter progress_per st sentence
      = if decide (progress_per = 0) then Raise ZeroDivisionError
        else Ok (learn_sentence max_vocab_size delimiter st sentence)) /\
  (forall (sentences : list (list string)) (max_vocab_size : Z)
          (delimiter : string) (progress_per : Z),
      progress_per <> 0 \/ sentences = [] ->
      exists min_reduce vocab,
        learn_vocab sentences max_vocab_size delimiter progress_per
        = Ok (min_reduce, vocab, tokens_in sentences)) /\
  (forall (sentence : list string) (rest : list (list string))
          (max_vocab_size : Z) (delimiter : string),
      learn_vocab (sentence :: rest) max_vocab_size delimiter 0
      = Raise ZeroDivisionError).
Proof.
  split; [|split; [apply learn_sentence_cases|split; [|split]]].
  - intros delimiter vocab total_words sentence k s st.
    destruct (count_sentence_eq delimiter vocab total_words sentence k)
      as [Hc Ht].
    fold s in Hc, Ht. fold st in Hc, Ht.
    split; [exact Hc|]. split; [exact Ht|].
    rewrite Ht, <- Z.add_assoc, bigrams_length. subst s.
    rewrite length_map. reflexivity.
  - intros mvs d pp st sentence. unfold learn_iteration.
    destruct (Z.eqb_spec pp 0) as [H0|H0], (decide (pp = 0));
      try reflexivity; contradiction.
  - intros sentences mvs d pp Hdom.
    assert (Hl : learn_vocab sentences mvs d pp
                 = Ok (learn_loop sentences mvs d)).
    { destruct Hdom as [Hpp | ->]; [apply learn_vocab_ok; exact Hpp|].
      reflexivity. }
    rewrite Hl.
    pose proof (learn_fold_total mvs d sentences (1, ∅, 0)) as Ht.
    fold (learn_loop sentences mvs d) in Ht.
    destruct (learn_loop sentences mvs d) as [[mr v] t].
    cbn [snd] in Ht. exists mr, v. f_equal. f_equal. lia.
  - intros sentence rest mvs d. rewrite learn_vocab_eq. reflexivity.
Qed.

Lemma learn_vocab_total (sentences : list (list string)) (max_vocab_size : Z)
    (delimiter : string) (progress_per : Z) (learned : Z * gmap string Z * Z) :
  learn_vocab sentences max_vocab_size delimiter progress_per = Ok learned ->
  learned.2 = tokens_in sentences.
Proof.
  intros H. apply learn_vocab_inv in H as ->. unfold learn_loop.
  rewrite learn_fold_total. cbn [snd]. lia.
Qed.

(** ** Merging and pruning *)

Lemma count_of_empty (k : string) : count_of ∅ k = 0.
Proof. unfold count_of. rewrite lookup_empty. reflexivity. Qed.

Lemma merge_counts_count (self_vocab vocab : gmap string Z) (k : string) :
  count_of (merge_counts self_vocab vocab) k
  = count_of self_vocab k + count_of vocab k.
Proof.
  unfold merge_counts.
  apply (map_fold_weak_ind
           (fun acc (m : gmap string Z) =>
              count_of acc k = count_of self_vocab k + count_of m k)).
  - rewrite count_of_empty. lia.
  - intros i x m acc Hnone IH.
    rewrite count_of_add_count, IH. unfold count_of at 4.
    destruct (decide (i = k)) as [-> | Hne].
    + rewrite lookup_insert_eq. unfold count_of. rewrite Hnone. simpl. lia.
    + rewrite lookup_insert_ne by assumption. unfold count_of. lia.
Qed.



Lemma len_pos_iff (vocab : gmap string Z) :
  (len vocab >? 0) = true <-> vocab <> ∅.
Proof.
  unfold len. rewrite Z.gtb_ltb, Z.ltb_lt, <- map_size_empty_iff. lia.
Qed.


Lemma merge_vocab_cases (self : Phrases) (learned : Z * gmap string Z * Z) :
  let merged := merge_counts (vocab self) learned.1.2 in
  let mr := Z.max (min_reduce self) learned.1.1 in
  corpus_word_count (merge_vocab self learned)
  = corpus_word_count self + learned.2 /\
  (vocab (merge_vocab self learned), min_reduce (merge_vocab self learned))
  = if decide (vocab self = ∅) then (learned.1.2, min_reduce self)
    else if decide (max_vocab_size self < len merged)
         then (prune_vocab merged mr, mr + 1)
         else (merged, mr).
Proof.
  intros merged mr. subst merged mr. unfold merge_vocab.
  destruct learned as [[mr' v'] tw]. simpl.
  destruct (decide (vocab self = ∅)) as [He | Hne].
  - destruct (len (vocab self) >? 0) eqn:Hlen.
    + apply len_pos_iff in Hlen. contradiction.
    + split; reflexivity.
  - apply len_pos_iff in Hne. rewrite Hne.
    destruct (decide (max_vocab_size self < len (merge_counts (vocab self) v')))
      as [Hgt | Hle].
    + apply Z.ltb_lt in Hgt. rewrite <- Z.gtb_ltb in Hgt. rewrite Hgt.
      split; reflexivity.
    + destruct (len _ >? max_vocab_size self) eqn:Hgt.
      * rewrite Z.gtb_ltb, Z.ltb_lt in Hgt. contradiction.
      * split; reflexivity.
Qed.

Lemma add_vocab_cases (self : Phrases) (sentences : list (list string))
    (learned : Z * gmap string Z * Z) :
  learn_vocab sentences (max_vocab_size self) (delimiter self)
    (progress_per self) = Ok learned ->
  let merged := merge_counts (vocab self) learned.1.2 in
  let mr := Z.max (min_reduce self) learned.1.1 in
  exists self',
    add_vocab self sentences = Ok self' /\
    corpus_word_count self' = corpus_word_count self + learned.2 /\
    (vocab self', min_reduce self')
    = if decide (vocab self = ∅) then (learned.1.2, min_reduce self)
      else if decide (max_vocab_size self < len merged)
           then (prune_vocab merged mr, mr + 1)
           else (merged, mr).
Proof.
  intros Hl merged mr. exists (merge_vocab self learned).
  unfold add_vocab. rewrite Hl. split; [reflexivity|].
  apply merge_vocab_cases.
Qed.


Lemma learn_sentence_min_reduce (max_vocab_size : Z) (delimiter : string)
    (st : Z * gmap string Z * Z) (sentence : list string) :
  st.1.1 <= (learn_sentence max_vocab_size delimiter st sentence).1.1.
Proof.
  destruct st as [[mr v] t]. rewrite learn_sentence_cases.
  destruct (decide _); simpl; lia.
Qed.

Lemma learn_fold_min_reduce (max_vocab_size : Z) (delimiter : string)
    (sentences : list (list string)) (st : Z * gmap string Z * Z) :
  st.1.1
  <= (fold_left (learn_sentence max_vocab_size delimiter) sentences st).1.1.
Proof.
  revert st. induction sentences as [|s ss IH]; intros st; [simpl; lia|].
  change (fold_left (learn_sentence max_vocab_size delimiter) (s :: ss) st)
    with (fold_left (learn_sentence max_vocab_size delimiter) ss
            (learn_sentence max_vocab_size delimiter st s)).
  etransitivity; [apply learn_sentence_min_reduce | apply IH].
Qed.


Lemma learn_vocab_min_reduce (sentences : list (list string))
    (max_vocab_size : Z) (delimiter : string) (progress_per : Z)
    (learned : Z * gmap string Z * Z) :
  learn_vocab sentences max_vocab_size delimiter progress_per = Ok learned ->
  1 <= learned.1.1.
Proof.
  intros H. apply learn_vocab_inv in H as ->.
  apply (learn_fold_min_reduce max_vocab_size delimiter sentences (1, ∅, 0)).
Qed.

Lemma merge_vocab_min_reduce (self : Phrases)
    (learned : Z * gmap string Z * Z) :
  min_reduce self <= min_reduce (merge_vocab self learned).
Proof.
  destruct (merge_vocab_cases self learned) as [_ H]. cbv zeta in H.
  assert (Hmr : min_reduce (merge_vocab self learned)
                = (vocab (merge_vocab self learned),
                   min_reduce (merge_vocab self learned)).2) by reflexivity.
  rewrite Hmr, H.
  destruct (decide (vocab self = ∅)); [simpl; lia|].
  destruct (decide _); simpl; lia.
Qed.

Lemma add_vocab_min_reduce (self : Phrases) (sentences : list (list string))
    (self' : Phrases) :
  add_vocab self sentences = Ok self' ->
  min_reduce self <= min_reduce self'.
Proof.
  intros H. apply add_vocab_inv in H as [_ ->]. apply merge_vocab_min_reduce.
Qed.

Lemma reachable_min_reduce (self : Phrases) :
  reachable self -> 1 <= min_reduce self.
Proof.
  induction 1 as [sentences mc th mvs d pp sc self Hinit
                 | self ss self' _ IH Hadd].
  - unfold Phrases_init in Hinit.
    destruct (Phrases_configure _ _ _ _ _ _) as [self0|e] eqn:Hc;
      [|discriminate].
    apply configure_threshold in Hc as [_ [Hmr _]].
    destruct sentences as [ss|].
    + apply add_vocab_min_reduce in Hinit. lia.
    + injection Hinit as <-. lia.
  - apply add_vocab_min_reduce in Hadd. lia.
Qed.

Lemma prune_vocab_spec_lookup (vocab : gmap string Z) (min_reduce : Z)
    (k : string) (c : Z) :
  prune_vocab_spec vocab min_reduce !! k = Some c
  <-> vocab !! k = Some c /\ min_reduce <= c.
Proof. unfold prune_vocab_spec. rewrite map_lookup_filter_Some. reflexivity. Qed.

(** C8: a constructed model has [min_reduce = 1] and [learn_vocab] starts
    from 1; neither an iteration of [learn_vocab] nor [add_vocab] decreases
    [min_reduce], so it is at least 1 in every reachable state.  The pruning
    pass (prune, then increment [min_reduce]) runs in [learn_vocab] and in
    [add_vocab] only when the number of keys exceeds [max_vocab_size];
    otherwise vocabulary and [min_reduce] are left as they are.  The pruning
    of the specification keeps exactly the entries whose count is not below
    [min_reduce]. *)
Theorem min_reduce_never_decreases :
  (forall min_count threshold max_vocab_size delimiter progress_per scoring
          (self : Phrases),
      Phrases_configure min_count threshold max_vocab_size delimiter
        progress_per scoring = Ok self ->
      min_reduce self = 1) /\
  (forall max_vocab_size delimiter progress_per,
      learn_vocab [] max_vocab_size delimiter progress_per = Ok (1, ∅, 0)) /\
  (forall max_vocab_size delimiter st sentence,
      st.1.1 <= (learn_sentence max_vocab_size delimiter st sentence).1.1) /\
  (forall max_vocab_size delimiter progress_per st sentence st',
      learn_iteration max_vocab_size delimiter progress_per st sentence
      = Ok st' ->
      st.1.1 <= st'.1.1) /\
  (forall sentences max_vocab_size delimiter progress_per learned,
      learn_vocab sentences max_vocab_size delimiter progress_per
      = Ok learned ->
      1 <= learned.1.1) /\
  (forall (self : Phrases) sentences self',
      add_vocab self sentences = Ok self' ->
      min_reduce self <= min_reduce self') /\
  (forall self : Phrases, reachable self -> 1 <= min_reduce self) /\
  (forall max_vocab_size delimiter min_reduce vocab total_words sentence,
      let counted := count_sentence delimiter (vocab, total_words) sentence in
      learn_sentence max_vocab_size delimiter (min_reduce, vocab, total_words)
        sentence
      = if decide (max_vocab_size < len counted.1)
        then (min_reduce + 1, prune_vocab counted.1 min_reduce, counted.2)
        else (min_reduce, counted.1, counted.2)) /\
  (forall (self : Phrases) sentences learned,
      learn_vocab sentences (max_vocab_size self) (delimiter self)
        (progress_per self) = Ok learned ->
      let merged := merge_counts (vocab self) learned.1.2 in
      let mr := Z.max (min_reduce self) learned.1.1 in
      exists self',
        add_vocab self sentences = Ok self' /\
        (vocab self', min_reduce self')
        = if decide (vocab self = ∅) then (learned.1.2, min_reduce self)
          else if decide (max_vocab_size self < len merged)
               then (prune_vocab merged mr, mr + 1)
               else (merged, mr)) /\
  (forall vocab min_reduce k c,
      prune_vocab_spec vocab min_reduce !! k = Some c
      <-> vocab !! k = Some c /\ min_reduce <= c).
Proof.
  split; [|split; [|split; [|split; [|split; [|split; [|split; [|split;
    [|split]]]]]]]].
  - intros mc th mvs d pp sc self H.
    apply configure_threshold in H. destruct H as [_ [H _]]. exact H.
  - reflexivity.
  - apply learn_sentence_min_reduce.
  - intros mvs d pp st sentence st'. unfold learn_iteration.
    destruct (pp =? 0); [discriminate|]. intros H; injection H as <-.
    apply learn_sentence_min_reduce.
  - apply learn_vocab_min_reduce.
  - apply add_vocab_min_reduce.
  - apply reachable_min_reduce.
  - apply learn_sentence_cases.
  - intros self sentences learned Hl merged mr.
    destruct (add_vocab_cases self sentences learned Hl)
      as [self' [Hadd [_ Hcase]]].
    exists self'. split; [exact Hadd | exact Hcase].
  - apply prune_vocab_spec_lookup.
Qed.

(** A non-empty delimiter never makes the compilation fail. *)
Lemma pseudocorpus_keys_ok (sep : string) (keys : list string) :
  sep <> "" -> exists corpus, pseudocorpus_keys sep keys = Ok corpus.
Proof.
  intros Hsep. induction keys as [|k keys [rest IH]].
  - exists []. reflexivity.
  - simpl. unfold pseudocorpus_key, split.
    destruct (negb (contains sep k)).
    + rewrite IH. eexists; reflexivity.
    + destruct sep; [contradiction|]. rewrite IH. eexists; reflexivity.
Qed.
(** * Further properties *)

(** ** Splitting and joining *)

Lemma str_app_assoc (a b c : string) : (a +:+ b) +:+ c = a +:+ (b +:+ c).
Proof.
  induction a as [|x a IH]; [reflexivity|].
  change (String x ((a +:+ b) +:+ c) = String x (a +:+ (b +:+ c))).
  f_equal. exact IH.
Qed.

Lemma str_join_cons (sep x : string) (l : list string) :
  l <> [] -> str_join sep (x :: l) = x +:+ sep +:+ str_join sep l.
Proof. destruct l; [contradiction | reflexivity]. Qed.

Lemma str_join_app (sep : string) (l1 l2 : list string) :
  l1 <> [] -> l2 <> [] ->
  str_join sep (l1 ++ l2) = str_join sep l1 +:+ sep +:+ str_join sep l2.
Proof.
  intros H1 H2. induction l1 as [|x l1 IH]; [contradiction|].
  destruct l1 as [|y l1].
  - change ([x] ++ l2) with (x :: l2). rewrite str_join_cons by assumption.
    reflexivity.
  - change ((x :: y :: l1) ++ l2) with (x :: ((y :: l1) ++ l2)).
    rewrite str_join_cons by discriminate.
    rewrite IH by discriminate.
    rewrite (str_join_cons sep x (y :: l1)) by discriminate.
    rewrite !str_app_assoc. reflexivity.
Qed.

Lemma split_scan_nonempty (sep : string) (skip : nat) (k : string) :
  split_scan sep skip k <> [].
Proof.
  revert skip. induction k as [|c k IH]; intros skip; [done|].
  cbn [split_scan]. destruct skip as [|n]; [|apply IH].
  destruct (String.prefix sep (String c k)); [done|].
  destruct (split_scan sep 0 k); done.
Qed.

Lemma split_scan_skip (sep : string) (skip : nat) (k : string) :
  split_scan sep skip k = split_scan sep 0 (str_drop skip k).
Proof.
  revert skip. induction k as [|c k IH]; intros skip.
  - destruct skip; reflexivity.
  - destruct skip as [|n]; [reflexivity|]. simpl. apply IH.
Qed.

Lemma prefix_drop (sep k : string) :
  String.prefix sep k = true -> k = sep +:+ str_drop (String.length sep) k.
Proof.
  revert k. induction sep as [|a sep IH]; intros k H; [reflexivity|].
  destruct k as [|b k]; [discriminate|]. simpl in H.
  destruct (ascii_dec a b) as [-> | _]; [|discriminate].
  change (String b k = String b (sep +:+ str_drop (String.length sep) k)).
  f_equal. apply IH. exact H.
Qed.

Lemma str_drop_length (n : nat) (k : string) :
  (String.length (str_drop n k) <= String.length k)%nat.
Proof.
  revert k. induction n as [|n IH]; intros k; [reflexivity|].
  destruct k as [|c k]; [reflexivity|]. simpl. specialize (IH k). lia.
Qed.

Lemma str_join_head (sep : string) (c : ascii) (piece : string)
    (pieces : list string) :
  str_join sep (String c piece :: pieces)
  = String c (str_join sep (piece :: pieces)).
Proof. destruct pieces; reflexivity. Qed.

(** [sep.join(k.split(sep))] is [k]. *)
Lemma split_scan_join (sep : string) :
  sep <> "" -> forall k, str_join sep (split_scan sep 0 k) = k.
Proof.
  intros Hsep k.
  remember (String.length k) as n eqn:Hn.
  revert k Hn. induction n as [n IH] using lt_wf_ind. intros k Hn.
  destruct k as [|c k]; [reflexivity|].
  cbn [split_scan].
  destruct (String.prefix sep (String c k)) eqn:Hp.
  - rewrite split_scan_skip.
    rewrite str_join_cons by apply split_scan_nonempty.
    destruct sep as [|a sep]; [contradiction|].
    assert (Hdrop : str_drop (String.length (String a sep) - 1) k
                    = str_drop (String.length (String a sep)) (String c k)).
    { simpl. rewrite Nat.sub_0_r. reflexivity. }
    rewrite Hdrop.
    rewrite (IH (String.length
                   (str_drop (String.length (String a sep)) (String c k)))).
    + symmetry. apply prefix_drop. exact Hp.
    + subst n. simpl. pose proof (str_drop_length (String.length sep) k). lia.
    + reflexivity.
  - pose proof (split_scan_nonempty sep 0 k) as Hne.
    assert (Hlt : (String.length k < n)%nat) by (subst n; simpl; lia).
    pose proof (IH (String.length k) Hlt k eq_refl) as IHk.
    destruct (split_scan sep 0 k) as [|piece pieces]; [contradiction|].
    rewrite str_join_head. f_equal. exact IHk.
Qed.

Lemma prefix_nil (k : string) : String.prefix "" k = true.
Proof. destruct k; reflexivity. Qed.

Lemma prefix_append (sep b : string) : String.prefix sep (sep +:+ b) = true.
Proof.
  induction sep as [|x sep IH]; [apply prefix_nil|]. simpl.
  destruct (ascii_dec x x); [exact IH | contradiction].
Qed.

Lemma contains_here (sep k : string) :
  String.prefix sep k = true -> contains sep k = true.
Proof. intros H. destruct k; cbn [contains]; rewrite H; reflexivity. Qed.

Lemma contains_append (sep a b : string) :
  contains sep (a +:+ sep +:+ b) = true.
Proof.
  induction a as [|c a IH].
  - change (contains sep (sep +:+ b) = true).
    apply contains_here. apply prefix_append.
  - change (contains sep (String c (a +:+ sep +:+ b)) = true).
    cbn [contains]. rewrite IH. apply orb_true_r.
Qed.

Lemma pseudocorpus_key_split (sep k : string)
    (corpus : list (list string)) (sentence : list string) :
  pseudocorpus_key sep k = Ok corpus -> sentence ∈ corpus ->
  exists prefix suffix,
    sentence = [prefix; suffix] /\ prefix +:+ sep +:+ suffix = k.
Proof.
  unfold pseudocorpus_key, split.
  destruct (negb (contains sep k)).
  { intros H; injection H as <-. intros Hin. inversion Hin. }
  destruct sep as [|a sep]; [discriminate|].
  intros H; injection H as <-. intros Hin.
  apply list_elem_of_fmap in Hin as [i [-> Hi]].
  apply elem_of_seq in Hi.
  pose proof (split_scan_join (String a sep) ltac:(discriminate) k) as Hjoin.
  set (unigrams := split_scan (String a sep) 0 k) in *.
  eexists _, _. split; [reflexivity|].
  rewrite <- str_join_app; [rewrite take_drop; exact Hjoin | |].
  - intros H0. apply (f_equal length) in H0.
    rewrite length_take in H0. simpl in H0. lia.
  - intros H0. apply (f_equal length) in H0.
    rewrite length_drop in H0. simpl in H0. lia.
Qed.

Lemma pseudocorpus_keys_elem (sep : string) (keys : list string)
    (corpus : list (list string)) (sentence : list string) :
  pseudocorpus_keys sep keys = Ok corpus -> sentence ∈ corpus ->
  exists k part, k ∈ keys /\ pseudocorpus_key sep k = Ok part /\
                 sentence ∈ part.
Proof.
  revert corpus. induction keys as [|k keys IH]; intros corpus; simpl.
  - intros H; injection H as <-. intros Hin. inversion Hin.
  - destruct (pseudocorpus_key sep k) as [part|e] eqn:Hk; [|discriminate].
    destruct (pseudocorpus_keys sep keys) as [rest|e]; [|discriminate].
    intros H; injection H as <-. intros Hin.
    apply elem_of_app in Hin as [Hin | Hin].
    + exists k, part. split; [left | auto].
    + destruct (IH rest eq_refl Hin) as [k' [part' [Hk' [Heq Hin']]]].
      exists k', part'. split; [right; exact Hk' | auto].
Qed.

Lemma pseudocorpus_keys_elem_rev (sep : string) (keys : list string)
    (corpus part : list (list string)) (k : string) (sentence : list string) :
  pseudocorpus_keys sep keys = Ok corpus -> k ∈ keys ->
  pseudocorpus_key sep k = Ok part -> sentence ∈ part ->
  sentence ∈ corpus.
Proof.
  revert corpus. induction keys as [|k0 keys IH]; intros corpus; simpl.
  - intros _ Hin. inversion Hin.
  - destruct (pseudocorpus_key sep k0) as [part0|e] eqn:Hk0; [|discriminate].
    destruct (pseudocorpus_keys sep keys) as [rest|e]; [|discriminate].
    intros H; injection H as <-. intros Hin Hk Hs.
    apply elem_of_app. apply elem_of_cons in Hin as [-> | Hin].
    + left. rewrite Hk in Hk0. injection Hk0 as <-. exact Hs.
    + right. apply (IH rest eq_refl Hin Hk Hs).
Qed.

Lemma keys_of_map (vocab : gmap string Z) (k : string) :
  k ∈ map fst (map_to_list vocab) <-> is_Some (vocab !! k).
Proof.
  rewrite list_elem_of_fmap. split.
  - intros [[k' c] [-> Hin]]. apply elem_of_map_to_list in Hin.
    exists c. exact Hin.
  - intros [c Hc]. exists (k, c). split; [reflexivity|].
    apply elem_of_map_to_list. exact Hc.
Qed.

(** X1: every sentence of the pseudo-corpus has exactly two tokens, and
    joining them with the separator gives back a key of the vocabulary. *)
Theorem pseudocorpus_sentences (source_vocab : gmap string Z) (sep : string)
    (corpus : list (list string)) (sentence : list string) :
  pseudocorpus source_vocab sep = Ok corpus ->
  sentence ∈ corpus ->
  exists prefix suffix,
    sentence = [prefix; suffix] /\
    is_Some (source_vocab !! str_join sep [prefix; suffix]).
Proof.
  unfold pseudocorpus. intros Hc Hin.
  destruct (pseudocorpus_keys_elem _ _ _ _ Hc Hin) as [k [part [Hk [Hp Hs]]]].
  destruct (pseudocorpus_key_split _ _ _ _ Hp Hs) as [p [s [-> Hjoin]]].
  exists p, s. split; [reflexivity|].
  change (str_join sep [p; s]) with (p +:+ sep +:+ s). rewrite Hjoin.
  apply keys_of_map. exact Hk.
Qed.

(** ** Exported phrases *)

Lemma fold_result_raises {A B : Type} (f : A -> B -> result A) (l : list B)
    (a : A) (e : exn) :
  fold_result f l a = Raise e -> exists st x, x ∈ l /\ f st x = Raise e.
Proof.
  revert a. induction l as [|y l IH]; intros a; cbn; [discriminate|].
  destruct (f a y) as [st|e'] eqn:Hy.
  - intros H. destruct (IH st H) as [st' [x [Hin Hx]]].
    exists st', x. split; [right; exact Hin | exact Hx].
  - intros H; injection H as ->. exists a, y. split; [left | exact Hy].
Qed.

Lemma greedy_export_step_eq {A : Type} (q : string -> string -> bool)
    (sc : string -> string -> A) (last_bigram : bool)
    (out : list (string * string * A)) (word_a word_b : string) :
  greedy_export_step q sc (last_bigram, out) (word_a, word_b) =
  if q word_a word_b && negb last_bigram
  then (true, out ++ [(word_a, word_b, sc word_a word_b)])
  else (false, out).
Proof. reflexivity. Qed.

Lemma export_step_sound (self : Phrases)
    (st : bool * list (string * string * pyfloat)) (p : string * string)
    (st' : bool * list (string * string * pyfloat)) :
  export_step self st p = Ok st' ->
  st' = greedy_export_step (qualifies self) (score_of self) st p.
Proof.
  destruct st as [last_bigram out], p as [word_a word_b].
  rewrite greedy_export_step_eq. unfold export_step. destruct last_bigram.
  - rewrite candidate_last, andb_false_r.
    intros H; injection H as <-. reflexivity.
  - rewrite andb_true_r.
    destruct (candidate self false word_a word_b) as [c|e] eqn:Hc;
      [|discriminate].
    apply candidate_ok in Hc as ->.
    destruct (qualifies self word_a word_b);
      intros H; injection H as <-; reflexivity.
Qed.

Lemma export_step_defined (self : Phrases) (last_bigram : bool)
    (out : list (string * string * pyfloat)) (word_a word_b : string) :
  (last_bigram = false -> defined_at self word_a word_b) ->
  export_step self (last_bigram, out) (word_a, word_b)
  = Ok (greedy_export_step (qualifies self) (score_of self)
          (last_bigram, out) (word_a, word_b)).
Proof.
  intros Hdef.
  destruct (export_step self (last_bigram, out) (word_a, word_b))
    as [st'|e] eqn:Hstep.
  - apply export_step_sound in Hstep as ->. reflexivity.
  - exfalso. unfold export_step in Hstep. destruct last_bigram.
    + rewrite candidate_last in Hstep. discriminate.
    + apply candidate_defined in Hdef as [c Hc]; [|reflexivity].
      rewrite Hc in Hstep. destruct c as [[w sc]|]; discriminate.
Qed.

Lemma export_step_raises (self : Phrases)
    (st : bool * list (string * string * pyfloat)) (p : string * string)
    (e : exn) :
  export_step self st p = Raise e ->
  is_Some (vocab self !! p.1) /\
  is_Some (vocab self !! p.2) /\
  is_Some (vocab self !! str_join (delimiter self) [p.1; p.2]) /\
  pair_score self p.1 p.2 = Raise e.
Proof.
  destruct st as [last_bigram out], p as [word_a word_b].
  unfold export_step. destruct last_bigram.
  - rewrite candidate_last. discriminate.
  - destruct (candidate self false word_a word_b) as [[[w sc]|]|e'] eqn:Hc;
      try discriminate.
    intros H; injection H as ->. apply candidate_raises. exact Hc.
Qed.

Lemma export_loop_aux {A : Type} (q : string -> string -> bool)
    (sc : string -> string -> A) (s : list string) :
  (forall out,
      (fold_left (greedy_export_step q sc) (bigrams s) (false, out)).2
      = out ++ map (fun p => (p.1, p.2, sc p.1 p.2)) (greedy_pairs q s)) /\
  (forall a out,
      (fold_left (greedy_export_step q sc) (bigrams (a :: s)) (false, out)).2
      = out ++ map (fun p => (p.1, p.2, sc p.1 p.2))
                 (greedy_pairs q (a :: s))).
Proof.
  induction s as [|b s [IH1 IH2]].
  - split; intros; simpl; rewrite app_nil_r; reflexivity.
  - split; [exact (IH2 b)|].
    intros a out.
    change (bigrams (a :: b :: s)) with ((a, b) :: bigrams (b :: s)).
    cbn [fold_left]. rewrite greedy_export_step_eq, andb_true_r.
    cbn [greedy_pairs].
    destruct (q a b) eqn:Hq.
    + destruct s as [|c s].
      * reflexivity.
      * change (bigrams (b :: c :: s)) with ((b, c) :: bigrams (c :: s)).
        cbn [fold_left]. rewrite greedy_export_step_eq, andb_false_r.
        rewrite IH1, <- app_assoc. reflexivity.
    + apply IH2.
Qed.

(** An export that returns has yielded the pairs the greedy scan merges,
    each with its score. *)
Lemma export_sentence_sound (self : Phrases) (sentence : list string)
    (phrases : list (string * string * pyfloat)) :
  export_sentence self sentence = Ok phrases ->
  phrases = map (fun p => (p.1, p.2, score_of self p.1 p.2))
              (greedy_pairs (qualifies self) (map any2utf8 sentence)).
Proof.
  unfold export_sentence.
  destruct (fold_result _ _ _) as [st|e] eqn:Hfold; [|discriminate].
  apply (fold_result_sound _ _ _ _ _ (export_step_sound self)) in Hfold.
  destruct st as [last_bigram out]. intros H; injection H as <-.
  change out with (last_bigram, out).2. rewrite Hfold.
  rewrite (proj1 (export_loop_aux (qualifies self) (score_of self)
                    (map any2utf8 sentence)) []).
  reflexivity.
Qed.

Lemma export_sentence_total (self : Phrases) (sentence : list string) :
  (forall word_a word_b,
      (word_a, word_b) ∈ bigrams (map any2utf8 sentence) ->
      defined_at self word_a word_b) ->
  exists phrases, export_sentence self sentence = Ok phrases.
Proof.
  intros Hdef. unfold export_sentence.
  rewrite (fold_result_total _
             (greedy_export_step (qualifies self) (score_of self))).
  - destruct (fold_left _ _ _) as [last_bigram out]. exists out. reflexivity.
  - intros [last_bigram out] [word_a word_b] Hin.
    apply export_step_defined. intros _. apply Hdef. exact Hin.
Qed.

Lemma export_sentence_raises (self : Phrases) (sentence : list string)
    (e : exn) :
  export_sentence self sentence = Raise e ->
  exists word_a word_b,
    (word_a, word_b) ∈ bigrams (map any2utf8 sentence) /\
    is_Some (vocab self !! word_a) /\
    is_Some (vocab self !! word_b) /\
    is_Some (vocab self !! str_join (delimiter self) [word_a; word_b]) /\
    pair_score self word_a word_b = Raise e.
Proof.
  unfold export_sentence.
  destruct (fold_result _ _ _) as [[last_bigram out]|e'] eqn:Hfold;
    [discriminate|].
  intros H; injection H as ->.
  apply fold_result_raises in Hfold as [st [[word_a word_b] [Hin Hstep]]].
  exists word_a, word_b. split; [exact Hin|].
  apply (export_step_raises self st (word_a, word_b) e Hstep).
Qed.

(** The two loops make the same tests in the same order: on a sentence the
    transform and the export both return, or both raise. *)
Lemma loops_in_step (self : Phrases) (pairs : list (string * string))
    (last_bigram : bool) (new_s : list string)
    (out : list (string * string * pyfloat)) :
  match fold_result (getitem_step self) pairs (last_bigram, new_s),
        fold_result (export_step self) pairs (last_bigram, out) with
  | Ok _, Ok _ => True
  | Raise e, Raise e' => e = e'
  | _, _ => False
  end.
Proof.
  revert last_bigram new_s out.
  induction pairs as [|[word_a word_b] pairs IH];
    intros last_bigram new_s out; cbn; [exact I|].
  destruct (candidate self last_bigram word_a word_b) as [[[w sc]|]|e];
    [apply IH | apply IH | reflexivity].
Qed.

Lemma transform_returns_iff (self : Phrases) (sentence : list string) :
  (exists out, Phrases_transform self sentence = Ok out) <->
  (exists phrases, export_sentence self sentence = Ok phrases).
Proof.
  unfold Phrases_transform, export_sentence.
  pose proof (loops_in_step self (bigrams (map any2utf8 sentence)) false []
                []) as H.
  destruct (fold_result (getitem_step self) _ _) as [[lb new_s]|e],
    (fold_result (export_step self) _ _) as [[lb' out]|e'];
    try contradiction.
  - split; intros _; eexists; reflexivity.
  - split; intros [x Hx]; discriminate.
Qed.

Lemma greedy_pairs_elem (q : string -> string -> bool) (s : list string)
    (a b : string) :
  (a, b) ∈ greedy_pairs q s -> q a b = true /\ (a, b) ∈ bigrams s.
Proof.
  assert (H : ((a, b) ∈ greedy_pairs q s ->
               q a b = true /\ (a, b) ∈ bigrams s) /\
              forall x, (a, b) ∈ greedy_pairs q (x :: s) ->
                        q a b = true /\ (a, b) ∈ bigrams (x :: s)).
  { induction s as [|y s [IH1 IH2]].
    - split; [|intros x]; intros Hin; inversion Hin.
    - split; [exact (IH2 y)|]. intros x.
      change (bigrams (x :: y :: s)) with ((x, y) :: bigrams (y :: s)).
      cbn [greedy_pairs]. destruct (q x y) eqn:Hq.
      + intros Hin. apply elem_of_cons in Hin as [Heq | Hin].
        * injection Heq as -> ->. split; [exact Hq | left].
        * destruct (IH1 Hin) as [Hqa Hb]. split; [exact Hqa|].
          right. destruct s as [|z s]; [inversion Hb|].
          change (bigrams (y :: z :: s)) with ((y, z) :: bigrams (z :: s)).
          right. exact Hb.
      + intros Hin. destruct (IH2 y Hin) as [Hqa Hb].
        split; [exact Hqa | right; exact Hb]. }
  apply H.
Qed.

Lemma elem_of_concat {A : Type} (x : A) (ls : list (list A)) :
  x ∈ concat ls <-> exists l, x ∈ l /\ l ∈ ls.
Proof.
  induction ls as [|l0 ls IH]; cbn [concat].
  - split; [intros H; inversion H | intros [l [_ H]]; inversion H].
  - rewrite elem_of_app, IH. split.
    + intros [H | [l [Hx Hl]]].
      * exists l0. split; [exact H | left].
      * exists l. split; [exact Hx | right; exact Hl].
    + intros [l [Hx Hl]]. apply elem_of_cons in Hl as [-> | Hl].
      * left; exact Hx.
      * right; exists l; split; assumption.
Qed.

Lemma export_phrases_inv (self : Phrases) (sentences : list (list string))
    (phrases : list (string * string * pyfloat)) :
  export_phrases_as_tuples self sentences = Ok phrases ->
  exists per_sentence,
    map_result (export_sentence self) sentences = Ok per_sentence /\
    phrases = concat per_sentence.
Proof.
  unfold export_phrases_as_tuples.
  destruct (map_result _ _) as [ys|e]; [|discriminate].
  intros H; injection H as <-. exists ys. split; reflexivity.
Qed.

Lemma qualifies_score (self : Phrases) (word_a word_b : string) :
  qualifies self word_a word_b = true ->
  pair_score self word_a word_b = Ok (score_of self word_a word_b) /\
  float_gt (score_of self word_a word_b) (threshold self) = true.
Proof.
  intros Hq. apply qualifies_iff in Hq as [_ [_ [_ [Hgt _]]]].
  unfold score_of.
  destruct (pair_score self word_a word_b) as [score|e]; [|discriminate].
  split; [reflexivity | exact Hgt].
Qed.

Lemma export_phrases_elem (self : Phrases) (sentences : list (list string))
    (phrases : list (string * string * pyfloat)) (a b : string)
    (score : pyfloat) :
  export_phrases_as_tuples self sentences = Ok phrases ->
  (a, b, score) ∈ phrases ->
  qualifies self a b = true /\ score = score_of self a b.
Proof.
  intros Hexp Hin.
  apply export_phrases_inv in Hexp as [per_sentence [Hmap ->]].
  apply elem_of_concat in Hin as [l [Hin Hl]].
  apply (proj1 (map_result_elem _ _ _ Hmap)) in Hl as [sentence [_ Hs]].
  apply export_sentence_sound in Hs. rewrite Hs in Hin.
  apply list_elem_of_fmap in Hin as [[a' b'] [Heq Hin]].
  simpl in Heq. injection Heq as -> -> ->.
  apply greedy_pairs_elem in Hin as [Hq _]. auto.
Qed.

(** With a scoring function that returns wherever the model calls it, a
    non-empty delimiter never makes the compilation fail. *)
Lemma Phraser_init_ok (self : Phrases) :
  delimiter self <> "" -> scores_defined self ->
  exists phraser, Phraser_init self = Ok phraser.
Proof.
  intros Hsep Hdef. unfold Phraser_init, pseudocorpus.
  destruct (pseudocorpus_keys_ok (delimiter self)
              (map fst (map_to_list (vocab self))) Hsep) as [corpus ->].
  unfold export_phrases_as_tuples.
  destruct (map_result_total (export_sentence self) corpus) as [ys ->].
  - intros sentence _. apply export_sentence_total.
    intros a b _. apply Hdef.
  - eexists; reflexivity.
Qed.

Lemma Phraser_init_raises_cases (phrases_model : Phrases) :
  (exists e, Phraser_init phrases_model = Raise e) <->
  (delimiter phrases_model = "" /\ vocab phrases_model <> ∅) \/
  (exists corpus e,
      pseudocorpus (vocab phrases_model) (delimiter phrases_model)
      = Ok corpus /\
      export_phrases_as_tuples phrases_model corpus = Raise e).
Proof.
  unfold Phraser_init, pseudocorpus.
  destruct (decide (delimiter phrases_model = "")) as [Hd|Hd].
  - destruct (map_to_list (vocab phrases_model)) as [|[k c] l] eqn:Hl.
    + apply map_to_list_empty_iff in Hl. rewrite Hl. cbn.
      split; [intros [e He]; discriminate|].
      intros [[_ H] | [corpus [e [Hc He]]]]; [contradiction|].
      injection Hc as <-. discriminate.
    + assert (Hne : vocab phrases_model <> ∅).
      { intros He. rewrite He, map_to_list_empty in Hl. discriminate. }
      rewrite Hd. cbn [map fst pseudocorpus_keys]. unfold pseudocorpus_key.
      rewrite (contains_here "" k (prefix_nil k)). cbn.
      split; [intros _; left; auto | intros _; eexists; reflexivity].
  - destruct (pseudocorpus_keys_ok (delimiter phrases_model)
                (map fst (map_to_list (vocab phrases_model))) Hd)
      as [corpus ->].
    destruct (export_phrases_as_tuples phrases_model corpus)
      as [phrases|e] eqn:Hexp.
    + split; [intros [e He]; discriminate|].
      intros [[H _] | [corpus' [e [Hc He]]]]; [contradiction|].
      injection Hc as <-. congruence.
    + split; [|intros _; eexists; reflexivity].
      intros _. right. exists corpus, e. auto.
Qed.

Lemma export_phrases_raises (self : Phrases) (sentences : list (list string))
    (e : exn) :
  export_phrases_as_tuples self sentences = Raise e ->
  exists word_a word_b,
    is_Some (vocab self !! word_a) /\
    is_Some (vocab self !! word_b) /\
    is_Some (vocab self !! str_join (delimiter self) [word_a; word_b]) /\
    pair_score self word_a word_b = Raise e.
Proof.
  unfold export_phrases_as_tuples.
  destruct (map_result _ _) as [ys|e'] eqn:Hmap; [discriminate|].
  intros H; injection H as ->.
  apply map_result_raises in Hmap as [sentence [_ Hs]].
  apply export_sentence_raises in Hs as [a [b [_ H]]].
  exists a, b. exact H.
Qed.

(** X2: compiling a [Phraser] fails exactly when the delimiter is empty and
    the vocabulary is not (the split of the first key then raises), or the
    export of the pseudo-corpus raises, which it does only when the scoring
    function raises on a pair whose three keys are in the vocabulary.  With
    a scoring function that returns wherever the model calls it, only the
    first case is left. *)
Theorem Phraser_init_raises_iff (phrases_model : Phrases) :
  ((exists e, Phraser_init phrases_model = Raise e) <->
   (delimiter phrases_model = "" /\ vocab phrases_model <> ∅) \/
   (exists corpus e,
       pseudocorpus (vocab phrases_model) (delimiter phrases_model)
       = Ok corpus /\
       export_phrases_as_tuples phrases_model corpus = Raise e)) /\
  (forall corpus e,
      export_phrases_as_tuples phrases_model corpus = Raise e ->
      exists word_a word_b,
        is_Some (vocab phrases_model !! word_a) /\
        is_Some (vocab phrases_model !! word_b) /\
        is_Some (vocab phrases_model
                   !! str_join (delimiter phrases_model) [word_a; word_b]) /\
        pair_score phrases_model word_a word_b = Raise e) /\
  (scores_defined phrases_model ->
   ((exists e, Phraser_init phrases_model = Raise e) <->
    delimiter phrases_model = "" /\ vocab phrases_model <> ∅)).
Proof.
  split; [apply Phraser_init_raises_cases|].
  split; [apply export_phrases_raises|].
  intros Hdef. rewrite Phraser_init_raises_cases.
  split; [|left; assumption].
  intros [H | [corpus [e [_ He]]]]; [exact H|].
  apply export_phrases_raises in He as [a [b [Ha [Hb [Hab Hsc]]]]].
  destruct (Hdef a b Ha Hb Hab) as [score Hs]. congruence.
Qed.

(** X3: every phrase [export_phrases] yields passes the test of the model:
    both words and the compound key are in the vocabulary, the score it is
    yielded with is the one the scoring function returned for the pair and
    exceeds the threshold, and the count of the compound key is at least
    [min_count]. *)
Theorem export_phrases_sound (self : Phrases)
    (sentences : list (list string))
    (phrases : list (string * string * pyfloat)) (a b : string)
    (score : pyfloat) :
  export_phrases_as_tuples self sentences = Ok phrases ->
  (a, b, score) ∈ phrases ->
  is_Some (vocab self !! a) /\
  is_Some (vocab self !! b) /\
  is_Some (vocab self !! str_join (delimiter self) [a; b]) /\
  pair_score self a b = Ok score /\
  float_gt score (threshold self) = true /\
  min_count self <= count_of (vocab self) (str_join (delimiter self) [a; b]).
Proof.
  intros Hexp Hin.
  destruct (export_phrases_elem _ _ _ _ _ _ Hexp Hin) as [Hq ->].
  destruct (qualifies_score _ _ _ Hq) as [Hsc Hgt].
  apply qualifies_iff in Hq. forget_helpers. tauto.
Qed.

Lemma greedy_merge_cons2 (q : string -> string -> bool)
    (j : string -> string -> string) (a b : string) (s : list string) :
  greedy_merge q j (a :: b :: s)
  = if q a b then j a b :: greedy_merge q j s
    else a :: greedy_merge q j (b :: s).
Proof. reflexivity. Qed.

Lemma greedy_pairs_cons2 (q : string -> string -> bool) (a b : string)
    (s : list string) :
  greedy_pairs q (a :: b :: s)
  = if q a b then (a, b) :: greedy_pairs q s else greedy_pairs q (b :: s).
Proof. reflexivity. Qed.

Lemma greedy_lengths (q : string -> string -> bool)
    (j : string -> string -> string) (s : list string) :
  (length (greedy_merge q j s) + length (greedy_pairs q s))%nat = length s.
Proof.
  assert (H : (length (greedy_merge q j s) + length (greedy_pairs q s))%nat
              = length s /\
              forall a, (length (greedy_merge q j (a :: s))
                         + length (greedy_pairs q (a :: s)))%nat
                        = length (a :: s)).
  { induction s as [|b s [IH1 IH2]].
    - split; reflexivity.
    - split; [exact (IH2 b)|]. intros a.
      pose proof (IH2 b) as Hb.
      rewrite greedy_merge_cons2, greedy_pairs_cons2.
      destruct (q a b); rewrite !length_cons in *; lia. }
  apply H.
Qed.

(** X4: when the transform of a sentence returns, so does the export of
    its phrases, and the transform has as many tokens as the sentence minus
    one for every phrase exported. *)
Theorem transform_export_lengths (self : Phrases) (sentence out : list string) :
  Phrases_transform self sentence = Ok out ->
  exists phrases,
    export_sentence self sentence = Ok phrases /\
    (length out + length phrases)%nat = length sentence.
Proof.
  intros Ht.
  destruct (proj1 (transform_returns_iff self sentence)) as [phrases Hp];
    [exists out; exact Ht|].
  exists phrases. split; [exact Hp|].
  apply Phrases_transform_sound in Ht as ->.
  apply export_sentence_sound in Hp as ->.
  rewrite !length_map, greedy_lengths. apply length_map.
Qed.

(** ** What the greedy scan keeps *)

Lemma greedy_merge_nil (q : string -> string -> bool)
    (j : string -> string -> string) (s : list string) :
  greedy_merge q j s = [] -> s = [].
Proof.
  destruct s as [|a [|b s]]; [reflexivity | discriminate |].
  rewrite greedy_merge_cons2. destruct (q a b); discriminate.
Qed.

Lemma greedy_merge_join (d : string) (q : string -> string -> bool)
    (s : list string) :
  str_join d (greedy_merge q (fun a b => str_join d [a; b]) s) = str_join d s.
Proof.
  set (j := fun a b => str_join d [a; b]).
  assert (H : str_join d (greedy_merge q j s) = str_join d s /\
              forall a, str_join d (greedy_merge q j (a :: s))
                        = str_join d (a :: s)).
  { induction s as [|b s [IH1 IH2]].
    - split; reflexivity.
    - split; [exact (IH2 b)|]. intros a.
      rewrite greedy_merge_cons2. destruct (q a b).
      + destruct s as [|c s]; [reflexivity|].
        rewrite str_join_cons
          by (intros H0; apply greedy_merge_nil in H0; discriminate).
        rewrite IH1. unfold j.
        rewrite (str_join_cons d a (b :: c :: s)) by discriminate.
        rewrite (str_join_cons d b (c :: s)) by discriminate.
        change (str_join d [a; b]) with (a +:+ d +:+ b).
        rewrite !str_app_assoc. reflexivity.
      + rewrite str_join_cons
          by (intros H0; apply greedy_merge_nil in H0; discriminate).
        rewrite (IH2 b). rewrite (str_join_cons d a (b :: s)) by discriminate.
        reflexivity. }
  apply H.
Qed.

(** X5: neither transform loses, adds or reorders text: the tokens it
    produces, before they are decoded, joined with the delimiter spell the
    same byte string as the encoded tokens of the sentence joined with the
    delimiter. *)
Theorem transforms_preserve_text :
  (forall (self : Phrases) (sentence out : list string),
      Phrases_transform self sentence = Ok out ->
      exists new_s,
        out = map to_unicode new_s /\
        str_join (delimiter self) new_s
        = str_join (delimiter self) (map any2utf8 sentence)) /\
  (forall (self : Phraser) (sentence : list string),
      exists new_s,
        Phraser_transform self sentence = map to_unicode new_s /\
        str_join (phraser_delimiter self) new_s
        = str_join (phraser_delimiter self) (map any2utf8 sentence)).
Proof.
  split.
  - intros self sentence out Ht.
    eexists. split; [apply Phrases_transform_sound; exact Ht|].
    apply greedy_merge_join.
  - intros self sentence.
    eexists. split; [apply Phraser_transform_eq|]. apply greedy_merge_join.
Qed.

Lemma greedy_pairs_le (q : string -> string -> bool)
    (j : string -> string -> string) (s : list string) :
  (length (greedy_pairs q s) <= length (greedy_merge q j s))%nat.
Proof.
  assert (H : (length (greedy_pairs q s) <= length (greedy_merge q j s))%nat /\
              forall a, (length (greedy_pairs q (a :: s))
                         <= length (greedy_merge q j (a :: s)))%nat).
  { induction s as [|b s [IH1 IH2]].
    - split; [reflexivity | intros a; simpl; lia].
    - split; [exact (IH2 b)|]. intros a. pose proof (IH2 b) as Hb.
      rewrite greedy_merge_cons2, greedy_pairs_cons2.
      destruct (q a b); rewrite !length_cons; lia. }
  apply H.
Qed.

Lemma greedy_merge_bounds (q : string -> string -> bool)
    (j : string -> string -> string) (s : list string) :
  (length (greedy_merge q j s) <= length s
   /\ length s <= 2 * length (greedy_merge q j s))%nat.
Proof.
  pose proof (greedy_lengths q j s). pose proof (greedy_pairs_le q j s). lia.
Qed.

(** X6: a transform never lengthens a sentence and at most halves it: a
    merge turns two tokens into one and merges do not overlap. *)
Theorem transforms_length_bounds :
  (forall (self : Phrases) (sentence out : list string),
      Phrases_transform self sentence = Ok out ->
      (length out <= length sentence
       /\ length sentence <= 2 * length out)%nat)
  /\
  (forall (self : Phraser) (sentence : list string),
      (length (Phraser_transform self sentence) <= length sentence
       /\ length sentence <= 2 * length (Phraser_transform self sentence))%nat).
Proof.
  split.
  - intros self sentence out Ht.
    apply Phrases_transform_sound in Ht as ->. rewrite length_map.
    pose proof (greedy_merge_bounds (qualifies self)
                  (fun a b => str_join (delimiter self) [a; b])
                  (map any2utf8 sentence)) as H.
    rewrite length_map in H. exact H.
  - intros self sentence.
    rewrite Phraser_transform_eq, length_map.
    pose proof (greedy_merge_bounds (phraser_qualifies self)
                  (fun a b => str_join (phraser_delimiter self) [a; b])
                  (map any2utf8 sentence)) as H.
    rewrite length_map in H. exact H.
Qed.

Lemma greedy_merge_ext_adjacent (q q' : string -> string -> bool)
    (j : string -> string -> string) (s : list string) :
  (forall a b, (a, b) ∈ bigrams s -> q a b = q' a b) ->
  greedy_merge q j s = greedy_merge q' j s.
Proof.
  assert (H : ((forall a b, (a, b) ∈ bigrams s -> q a b = q' a b) ->
               greedy_merge q j s = greedy_merge q' j s) /\
              forall x, (forall a b, (a, b) ∈ bigrams (x :: s) ->
                                     q a b = q' a b) ->
                        greedy_merge q j (x :: s) = greedy_merge q' j (x :: s)).
  { induction s as [|y s [IH1 IH2]].
    - split; [|intros x]; intros _; reflexivity.
    - split; [exact (IH2 y)|]. intros x Hq.
      change (bigrams (x :: y :: s)) with ((x, y) :: bigrams (y :: s)) in Hq.
      rewrite !greedy_merge_cons2, <- (Hq x y) by left.
      destruct (q x y).
      + f_equal. apply IH1. intros a b Hin. apply Hq. right.
        destruct s as [|z s]; [inversion Hin|].
        change (bigrams (y :: z :: s)) with ((y, z) :: bigrams (z :: s)).
        right. exact Hin.
      + f_equal. apply (IH2 y). intros a b Hin. apply Hq. right. exact Hin. }
  apply H.
Qed.

(** X7: a sentence of which no adjacent pair has both its words and its
    compound key in the vocabulary comes back unchanged, up to the encoding
    and decoding of its tokens, and the scoring function is not called; so
    does every sentence when the vocabulary is empty. *)
Theorem Phrases_transform_unknown (self : Phrases) (sentence : list string) :
  (forall a b,
      (a, b) ∈ bigrams (map any2utf8 sentence) ->
      vocab self !! a = None \/ vocab self !! b = None \/
      vocab self !! str_join (delimiter self) [a; b] = None) ->
  Phrases_transform self sentence
  = Ok (map to_unicode (map any2utf8 sentence)).
Proof.
  intros Hnone. rewrite Phrases_transform_total.
  - f_equal. f_equal.
    rewrite (greedy_merge_ext_adjacent _ (fun _ _ => false)).
    + apply greedy_merge_never.
    + intros a b Hin. apply not_true_is_false. intros Hq.
      apply qualifies_iff in Hq as [[ca Ha] [[cb Hb] [[cab Hab] _]]].
      destruct (Hnone a b Hin) as [H | [H | H]]; congruence.
  - intros a b Hin [ca Ha] [cb Hb] [cab Hab].
    destruct (Hnone a b Hin) as [H | [H | H]]; congruence.
Qed.

(** ** The compiled mapping *)

Lemma add_phrasegrams_lookup_Some (phrases_model : Phrases) (d : string)
    (l : list (string * string * pyfloat))
    (pg : gmap (string * string) (Z * pyfloat)) (a b : string)
    (v : Z * pyfloat) :
  fold_left (add_phrasegram phrases_model d) l pg !! (a, b) = Some v ->
  pg !! (a, b) = Some v \/
  exists score,
    (a, b, score) ∈ l /\
    v = (count_of (vocab phrases_model) (str_join d [a; b]), score).
Proof.
  induction l as [|[[a0 b0] sc0] l IH] using rev_ind; [left; assumption|].
  rewrite fold_left_app. cbn [fold_left]. unfold add_phrasegram at 1.
  destruct (decide ((a0, b0) = (a, b))) as [Heq | Hne].
  - injection Heq as -> ->. rewrite lookup_insert_eq.
    intros H; injection H as <-. right. exists sc0.
    split; [|reflexivity]. apply elem_of_app. right. left.
  - rewrite lookup_insert_ne by assumption. intros H.
    destruct (IH H) as [Hpg | [score [Hin Hv]]]; [left; exact Hpg|].
    right. exists score. split; [|exact Hv]. apply elem_of_app. left. exact Hin.
Qed.

Lemma add_phrasegrams_lookup_in (phrases_model : Phrases) (d : string)
    (l : list (string * string * pyfloat))
    (pg : gmap (string * string) (Z * pyfloat)) (a b : string)
    (score : pyfloat) :
  (forall a' b' score', (a', b', score') ∈ l ->
                        score' = score_of phrases_model a' b') ->
  (a, b, score) ∈ l ->
  fold_left (add_phrasegram phrases_model d) l pg !! (a, b)
  = Some (count_of (vocab phrases_model) (str_join d [a; b]),
          score_of phrases_model a b).
Proof.
  induction l as [|[[a0 b0] sc0] l IH] using rev_ind;
    [intros _ H; inversion H|].
  intros Hsc Hin. rewrite fold_left_app. cbn [fold_left].
  unfold add_phrasegram at 1.
  destruct (decide ((a0, b0) = (a, b))) as [Heq | Hne].
  - injection Heq as -> ->. rewrite lookup_insert_eq.
    rewrite (Hsc a b sc0) by (apply elem_of_app; right; left). reflexivity.
  - rewrite lookup_insert_ne by assumption. apply IH.
    + intros a' b' sc' H. apply Hsc. apply elem_of_app. left. exact H.
    + apply elem_of_app in Hin as [Hin | Hin]; [exact Hin|].
      apply list_elem_of_singleton in Hin. injection Hin as -> -> ->.
      contradiction.
Qed.

Lemma phrasegrams_entry (phrases_model : Phrases) (phraser : Phraser)
    (a b : string) (count : Z) (score : pyfloat) :
  Phraser_init phrases_model = Ok phraser ->
  phrasegrams phraser !! (a, b) = Some (count, score) ->
  qualifies phrases_model a b = true /\
  count = count_of (vocab phrases_model)
            (str_join (delimiter phrases_model) [a; b]) /\
  score = score_of phrases_model a b.
Proof.
  intros Hinit Hlook.
  apply Phraser_init_inv in Hinit
    as [corpus [phrases [_ [Hexp [_ [_ [_ [_ Hpg]]]]]]]].
  rewrite Hpg in Hlook.
  apply add_phrasegrams_lookup_Some in Hlook as [Hempty | [sc [Hin Hv]]].
  - rewrite lookup_empty in Hempty. discriminate.
  - injection Hv as -> ->.
    destruct (export_phrases_elem _ _ _ _ _ _ Hexp Hin) as [Hq ->]. auto.
Qed.

(** X8: a [Phraser] copies threshold, [min_count], delimiter and scoring
    of its model, and every entry of its [phrasegrams] is a pair that passes
    the test of the model, stored with the count of its compound key and the
    score the scoring function returned, which exceeds the threshold. *)
Theorem phrasegrams_sound (phrases_model : Phrases) (phraser : Phraser)
    (a b : string) (count : Z) (score : pyfloat) :
  Phraser_init phrases_model = Ok phraser ->
  phrasegrams phraser !! (a, b) = Some (count, score) ->
  phraser_threshold phraser = threshold phrases_model /\
  phraser_min_count phraser = min_count phrases_model /\
  phraser_delimiter phraser = delimiter phrases_model /\
  phraser_scoring phraser = scoring phrases_model /\
  is_Some (vocab phrases_model !! a) /\
  is_Some (vocab phrases_model !! b) /\
  vocab phrases_model !! str_join (delimiter phrases_model) [a; b]
  = Some count /\
  pair_score phrases_model a b = Ok score /\
  float_gt score (phraser_threshold phraser) = true /\
  phraser_min_count phraser <= count.
Proof.
  intros Hinit Hlook.
  destruct (phrasegrams_entry _ _ _ _ _ _ Hinit Hlook) as [Hq [-> ->]].
  apply Phraser_init_inv in Hinit
    as [corpus [phrases [_ [_ [Hth [Hmc [Hd [Hsc _]]]]]]]].
  rewrite Hth, Hmc.
  destruct (qualifies_score _ _ _ Hq) as [Hscore Hgt].
  apply qualifies_iff in Hq as [Ha [Hb [[cab Hab] [_ Hle]]]].
  repeat split; try assumption.
  unfold count_of. rewrite Hab. reflexivity.
Qed.

Lemma Phraser_merges_only_qualifying_aux (phrases_model : Phrases)
    (phraser : Phraser) (a b : string) :
  float_gt (Fin (-1)) (threshold phrases_model) = false ->
  Phraser_init phrases_model = Ok phraser ->
  phraser_qualifies phraser a b = true ->
  qualifies phrases_model a b = true.
Proof.
  intros Hsentinel Hinit Hq.
  pose proof (Phraser_init_threshold _ _ Hinit) as Hth.
  apply phraser_qualifies_iff in Hq; [|rewrite Hth; exact Hsentinel].
  destruct Hq as [count [score [Hlook _]]].
  apply (phrasegrams_entry _ _ _ _ _ _ Hinit Hlook).
Qed.

(** X9: when the threshold of the model is not below [-1], the compiled
    model merges no pair the full model would not merge. *)
Theorem Phraser_merges_only_qualifying (phrases_model : Phrases)
    (phraser : Phraser) (a b : string) :
  float_gt (Fin (-1)) (threshold phrases_model) = false ->
  Phraser_init phrases_model = Ok phraser ->
  phraser_qualifies phraser a b = true ->
  qualifies phrases_model a b = true.
Proof. apply Phraser_merges_only_qualifying_aux. Qed.

(** ** The compiled model against the full model *)

Lemma split_scan_char_app (c : ascii) (a b : string) :
  split_scan (String c "") 0 (a +:+ String c "" +:+ b)
  = split_scan (String c "") 0 a ++ split_scan (String c "") 0 b.
Proof.
  induction a as [|d a IH].
  - change ("" +:+ String c "" +:+ b) with (String c b).
    cbn [split_scan String.prefix]. rewrite prefix_nil.
    destruct (ascii_dec c c); [reflexivity | contradiction].
  - change (String d a +:+ String c "" +:+ b)
      with (String d (a +:+ String c "" +:+ b)).
    cbn [split_scan String.prefix]. rewrite !prefix_nil.
    destruct (ascii_dec c d) as [Heq | Hne].
    + cbn [String.length Nat.sub]. rewrite IH. reflexivity.
    + rewrite IH.
      pose proof (split_scan_nonempty (String c "") 0 a) as Hne'.
      destruct (split_scan (String c "") 0 a) as [|piece pieces];
        [contradiction | reflexivity].
Qed.

Lemma pseudocorpus_key_pair (c : ascii) (a b : string) :
  exists part,
    pseudocorpus_key (String c "") (a +:+ String c "" +:+ b) = Ok part /\
    [a; b] ∈ part.
Proof.
  unfold pseudocorpus_key, split. rewrite contains_append. cbn [negb].
  eexists. split; [reflexivity|].
  rewrite split_scan_char_app.
  set (ua := split_scan (String c "") 0 a).
  set (ub := split_scan (String c "") 0 b).
  assert (Ha : ua <> []) by apply split_scan_nonempty.
  assert (Hb : ub <> []) by apply split_scan_nonempty.
  apply list_elem_of_fmap. exists (length ua). split.
  - rewrite take_app_length, drop_app_length. subst ua ub.
    rewrite !split_scan_join by discriminate. reflexivity.
  - apply elem_of_seq. rewrite length_app.
    destruct ua; [contradiction|]. destruct ub; [contradiction|].
    cbn [length]. lia.
Qed.


Lemma pseudocorpus_pair (phrases_model : Phrases) (corpus : list (list string))
    (a b : string) :
  String.length (delimiter phrases_model) = 1%nat ->
  pseudocorpus (vocab phrases_model) (delimiter phrases_model) = Ok corpus ->
  is_Some (vocab phrases_model
             !! str_join (delimiter phrases_model) [a; b]) ->
  [a; b] ∈ corpus.
Proof.
  intros Hlen Hc Hkey.
  destruct (delimiter phrases_model) as [|c [|c' d]] eqn:Hd;
    try discriminate.
  destruct (pseudocorpus_key_pair c a b) as [part [Hpart Hin]].
  change (str_join (String c "") [a; b])
    with (a +:+ String c "" +:+ b) in Hkey.
  apply keys_of_map in Hkey.
  unfold pseudocorpus in Hc.
  apply (pseudocorpus_keys_elem_rev _ _ _ _ _ _ Hc Hkey Hpart Hin).
Qed.

Lemma export_sentence_pair (self : Phrases) (a b : string)
    (phrases : list (string * string * pyfloat)) :
  any2utf8 a = a -> any2utf8 b = b -> qualifies self a b = true ->
  export_sentence self [a; b] = Ok phrases ->
  (a, b, score_of self a b) ∈ phrases.
Proof.
  intros Ha Hb Hq Hp. apply export_sentence_sound in Hp as ->.
  cbn [map]. rewrite Ha, Hb. cbn [greedy_pairs]. rewrite Hq. left.
Qed.

(** A compilation that returns has called the scoring function on every
    encoded pair whose three keys are in the vocabulary, and the call has
    returned. *)
Lemma Phraser_init_defined (phrases_model : Phrases) (phraser : Phraser)
    (a b : string) :
  String.length (delimiter phrases_model) = 1%nat ->
  any2utf8 a = a -> any2utf8 b = b ->
  Phraser_init phrases_model = Ok phraser ->
  defined_at phrases_model a b.
Proof.
  intros Hlen Ha Hb Hinit Hka Hkb Hkab.
  apply Phraser_init_inv in Hinit
    as [corpus [phrases [Hc [Hexp _]]]].
  pose proof (pseudocorpus_pair _ _ a b Hlen Hc Hkab) as Hsent.
  apply export_phrases_inv in Hexp as [per_sentence [Hmap _]].
  apply (proj2 (map_result_elem _ _ _ Hmap)) in Hsent as [y [_ Hy]].
  assert (Hd : defined_at phrases_model a b); [|exact (Hd Hka Hkb Hkab)].
  apply candidate_defined.
  unfold export_sentence in Hy. cbn [map] in Hy. rewrite Ha, Hb in Hy.
  change (bigrams [a; b]) with [(a, b)] in Hy. cbn [fold_result] in Hy.
  unfold export_step in Hy.
  destruct (candidate phrases_model false a b) as [c|e];
    [exists c; reflexivity | discriminate].
Qed.

Lemma phrasegrams_complete (phrases_model : Phrases) (phraser : Phraser)
    (a b : string) :
  String.length (delimiter phrases_model) = 1%nat ->
  any2utf8 a = a -> any2utf8 b = b ->
  Phraser_init phrases_model = Ok phraser ->
  qualifies phrases_model a b = true ->
  phrasegrams phraser !! (a, b)
  = Some (count_of (vocab phrases_model)
            (str_join (delimiter phrases_model) [a; b]),
          score_of phrases_model a b).
Proof.
  intros Hlen Ha Hb Hinit Hq.
  apply Phraser_init_inv in Hinit
    as [corpus [phrases [Hc [Hexp [_ [_ [_ [_ ->]]]]]]]].
  apply add_phrasegrams_lookup_in with (score := score_of phrases_model a b).
  { intros a' b' sc' Hin.
    apply (export_phrases_elem _ _ _ _ _ _ Hexp Hin). }
  pose proof Hq as Hkey.
  apply qualifies_iff in Hkey as [_ [_ [Hkey _]]].
  pose proof (pseudocorpus_pair _ _ a b Hlen Hc Hkey) as Hsent.
  apply export_phrases_inv in Hexp as [per_sentence [Hmap ->]].
  apply (proj2 (map_result_elem _ _ _ Hmap)) in Hsent as [y [Hin Hy]].
  apply elem_of_concat. exists y. split; [|exact Hin].
  apply (export_sentence_pair _ _ _ _ Ha Hb Hq Hy).
Qed.

Lemma bigrams_elem (s : list string) (a b : string) :
  (a, b) ∈ bigrams s -> a ∈ s /\ b ∈ s.
Proof.
  unfold bigrams. intros Hin. split.
  - apply elem_of_zip_l in Hin. exact Hin.
  - apply elem_of_zip_r in Hin. destruct s; [inversion Hin|].
    right. exact Hin.
Qed.

(** X10: for a one-byte delimiter, an encoding that leaves encoded tokens
    alone and a threshold not below [-1], the full model transforms every
    sentence, without raising, exactly as the [Phraser] compiled from it
    does. *)
Theorem Phraser_agrees_with_Phrases (phrases_model : Phrases)
    (phraser : Phraser) (sentence : list string) :
  String.length (delimiter phrases_model) = 1%nat ->
  (forall w, any2utf8 (any2utf8 w) = any2utf8 w) ->
  float_gt (Fin (-1)) (threshold phrases_model) = false ->
  Phraser_init phrases_model = Ok phraser ->
  Phrases_transform phrases_model sentence
  = Ok (Phraser_transform phraser sentence).
Proof.
  intros Hlen Hidem Hsentinel Hinit.
  rewrite Phrases_transform_total.
  - rewrite Phraser_transform_eq. f_equal. f_equal.
    pose proof (Phraser_init_inv _ _ Hinit)
      as [corpus [phrases [_ [_ [Hth [_ [Hd _]]]]]]].
    rewrite Hd. symmetry.
    apply greedy_merge_ext_adjacent. intros a b Hin.
    apply bigrams_elem in Hin as [Ha Hb].
    apply list_elem_of_fmap in Ha as [x [-> _]].
    apply list_elem_of_fmap in Hb as [y [-> _]].
    destruct (qualifies phrases_model (any2utf8 x) (any2utf8 y)) eqn:Hq.
    + unfold phraser_qualifies, stored_score.
      rewrite (phrasegrams_complete phrases_model phraser
                 (any2utf8 x) (any2utf8 y) Hlen (Hidem x) (Hidem y) Hinit Hq).
      cbn [default from_option id snd]. rewrite Hth.
      apply (qualifies_score _ _ _ Hq).
    + apply not_true_is_false. intros Hp.
      apply (Phraser_merges_only_qualifying_aux phrases_model phraser) in Hp;
        [congruence | assumption | assumption].
  - intros a b Hin. apply bigrams_elem in Hin as [Ha Hb].
    apply list_elem_of_fmap in Ha as [x [-> _]].
    apply list_elem_of_fmap in Hb as [y [-> _]].
    apply (Phraser_init_defined phrases_model phraser _ _ Hlen
             (Hidem x) (Hidem y) Hinit).
Qed.
(** ** Counts stay positive *)

Lemma positive_counts_ge0 (vocab : gmap string Z) (k : string) :
  positive_counts vocab -> 0 <= count_of vocab k.
Proof.
  intros Hpos. unfold count_of. destruct (vocab !! k) as [c|] eqn:Hk; simpl.
  - specialize (Hpos k c Hk). lia.
  - lia.
Qed.

Lemma add_count_positive (k : string) (n : Z) (vocab : gmap string Z) :
  1 <= n -> positive_counts vocab -> positive_counts (add_count k n vocab).
Proof.
  intros Hn Hpos k' c. unfold add_count.
  destruct (decide (k = k')) as [-> | Hne].
  - rewrite lookup_insert_eq. intros H; injection H as <-.
    pose proof (positive_counts_ge0 vocab k' Hpos). lia.
  - rewrite lookup_insert_ne by assumption. apply Hpos.
Qed.

Lemma count_bigrams_positive (delimiter : string)
    (bs : list (string * string)) (st : gmap string Z * Z) :
  positive_counts st.1 ->
  positive_counts (fold_left (count_bigram delimiter) bs st).1.
Proof.
  revert st. induction bs as [|[a b] bs IH]; intros [v t] Hpos; [exact Hpos|].
  cbn [fold_left]. apply IH. unfold count_bigram. cbn [fst snd].
  apply add_count_positive; [lia|]. apply add_count_positive; [lia|].
  exact Hpos.
Qed.

Lemma count_sentence_positive (delimiter : string) (st : gmap string Z * Z)
    (sentence : list string) :
  positive_counts st.1 ->
  positive_counts (count_sentence delimiter st sentence).1.
Proof.
  intros Hpos. unfold count_sentence.
  pose proof (count_bigrams_positive delimiter
                (bigrams (map any2utf8 sentence)) st Hpos) as H.
  destruct (fold_left _ _ st) as [v t].
  destruct (last (map any2utf8 sentence)); cbn [fst] in *; [|exact H].
  apply add_count_positive; [lia | exact H].
Qed.

Section Pruning.

(** Pruning only removes entries. *)
Hypothesis prune_only_removes : forall vocab min_reduce k c,
  prune_vocab vocab min_reduce !! k = Some c -> vocab !! k = Some c.

Lemma learn_sentence_positive (max_vocab_size : Z) (delimiter : string)
    (st : Z * gmap string Z * Z) (sentence : list string) :
  positive_counts st.1.2 ->
  positive_counts (learn_sentence max_vocab_size delimiter st sentence).1.2.
Proof using prune_only_removes.
  destruct st as [[mr v] t]. intros Hpos. unfold learn_sentence.
  pose proof (count_sentence_positive delimiter (v, t) sentence Hpos) as H.
  destruct (count_sentence delimiter (v, t) sentence) as [v' t'].
  destruct (len v' >? max_vocab_size); cbn [fst snd] in *; [|exact H].
  intros k c Hk. apply (H k c). apply (prune_only_removes _ _ _ _ Hk).
Qed.

Lemma learn_loop_positive (sentences : list (list string))
    (max_vocab_size : Z) (delimiter : string) :
  positive_counts (learn_loop sentences max_vocab_size delimiter).1.2.
Proof using prune_only_removes.
  unfold learn_loop.
  assert (H : forall st, positive_counts st.1.2 ->
                positive_counts
                  (fold_left (learn_sentence max_vocab_size delimiter)
                     sentences st).1.2).
  { induction sentences as [|s ss IH]; intros st Hpos; [exact Hpos|].
    cbn [fold_left]. apply IH. apply learn_sentence_positive. exact Hpos. }
  apply H. intros k c Hk. cbn [fst snd] in Hk. rewrite lookup_empty in Hk.
  discriminate.
Qed.

Lemma merge_counts_positive (self_vocab vocab : gmap string Z) :
  positive_counts self_vocab -> positive_counts vocab ->
  positive_counts (merge_counts self_vocab vocab).
Proof.
  intros Hself. unfold merge_counts.
  apply (map_fold_weak_ind
           (fun acc (m : gmap string Z) =>
              positive_counts m -> positive_counts acc)).
  - intros _. exact Hself.
  - intros i x m acc Hnone IH Hpos.
    apply add_count_positive.
    + apply (Hpos i x). apply lookup_insert_eq.
    + apply IH. intros k c Hk. apply (Hpos k c).
      rewrite lookup_insert_ne; [exact Hk|]. intros ->. congruence.
Qed.

Lemma merge_vocab_positive (self : Phrases)
    (learned : Z * gmap string Z * Z) :
  positive_counts (vocab self) -> positive_counts learned.1.2 ->
  positive_counts (vocab (merge_vocab self learned)).
Proof using prune_only_removes.
  intros Hpos Hl.
  destruct (merge_vocab_cases self learned) as [_ H]. cbv zeta in H.
  assert (Hv : vocab (merge_vocab self learned)
               = (vocab (merge_vocab self learned),
                  min_reduce (merge_vocab self learned)).1) by reflexivity.
  rewrite Hv, H.
  destruct (decide (vocab self = ∅)); [exact Hl|].
  pose proof (merge_counts_positive _ _ Hpos Hl) as Hm.
  destruct (decide _); cbn [fst]; [|exact Hm].
  intros k c Hk. apply (Hm k c). apply (prune_only_removes _ _ _ _ Hk).
Qed.

Lemma add_vocab_positive (self : Phrases) (sentences : list (list string))
    (self' : Phrases) :
  positive_counts (vocab self) -> add_vocab self sentences = Ok self' ->
  positive_counts (vocab self').
Proof using prune_only_removes.
  intros Hpos H. apply add_vocab_inv in H as [_ ->].
  apply merge_vocab_positive; [exact Hpos | apply learn_loop_positive].
Qed.

(** X11: as long as pruning only removes entries, every key of the
    vocabulary of a reachable model has a count of at least one, so no
    scoring function is called with a zero word count or a zero bigram
    count. *)
Theorem reachable_positive_counts (self : Phrases) :
  reachable self -> positive_counts (vocab self).
Proof using prune_only_removes.
  induction 1 as [sentences mc th mvs d pp sc self Hinit
                 | self ss self' _ IH Hadd].
  - unfold Phrases_init in Hinit.
    destruct (Phrases_configure _ _ _ _ _ _) as [self0|e] eqn:Hc;
      [|discriminate].
    apply configure_threshold in Hc as [_ [_ Hv]].
    assert (H0 : positive_counts (vocab self0)).
    { rewrite Hv. intros k c Hk. rewrite lookup_empty in Hk. discriminate. }
    destruct sentences as [ss|].
    + apply (add_vocab_positive _ _ _ H0 Hinit).
    + injection Hinit as <-. exact H0.
  - apply (add_vocab_positive _ _ _ IH Hadd).
Qed.

End Pruning.

(** ** Counting without pruning *)

Lemma add_count_len (k : string) (n : Z) (vocab : gmap string Z) :
  len (add_count k n vocab) <= len vocab + 1.
Proof.
  unfold len, add_count. rewrite map_size_insert.
  destruct (vocab !! k); simpl; lia.
Qed.

Lemma count_bigrams_len (delimiter : string) (bs : list (string * string))
    (st : gmap string Z * Z) :
  len (fold_left (count_bigram delimiter) bs st).1
  <= len st.1 + 2 * Z.of_nat (length bs).
Proof.
  revert st. induction bs as [|[a b] bs IH]; intros [v t].
  - simpl. lia.
  - cbn [fold_left]. etransitivity; [apply IH|].
    unfold count_bigram. cbn [fst snd]. rewrite length_cons.
    pose proof (add_count_len a 1 v).
    pose proof (add_count_len (str_join delimiter [a; b]) 1
                  (add_count a 1 v)).
    lia.
Qed.

Lemma count_sentence_len (delimiter : string) (st : gmap string Z * Z)
    (sentence : list string) :
  len (count_sentence delimiter st sentence).1
  <= len st.1 + 2 * Z.of_nat (length sentence).
Proof.
  unfold count_sentence.
  pose proof (count_bigrams_len delimiter
                (bigrams (map any2utf8 sentence)) st) as H.
  pose proof (bigrams_length (map any2utf8 sentence)) as Hl.
  rewrite length_map in Hl.
  destruct (fold_left _ _ st) as [v t]. cbn [fst] in H.
  destruct (last (map any2utf8 sentence)) as [word|]; cbn [fst] in *.
  - change (length (option_list (Some word))) with 1%nat in Hl.
    pose proof (add_count_len word 1 v). lia.
  - change (length (@option_list string None)) with 0%nat in Hl. lia.
Qed.

Lemma learn_fold_no_pruning (max_vocab_size : Z) (delimiter : string)
    (sentences : list (list string)) (min_reduce : Z)
    (vocab : gmap string Z) (total_words : Z) :
  len vocab + 2 * tokens_in sentences <= max_vocab_size ->
  fold_left (learn_sentence max_vocab_size delimiter) sentences
    (min_reduce, vocab, total_words)
  = (min_reduce,
     (fold_left (count_sentence delimiter) sentences (vocab, total_words)).1,
     (fold_left (count_sentence delimiter) sentences (vocab, total_words)).2).
Proof.
  revert vocab total_words.
  induction sentences as [|s ss IH]; intros vocab total_words Hcap;
    [reflexivity|].
  cbn [fold_left]. rewrite learn_sentence_cases.
  pose proof (count_sentence_len delimiter (vocab, total_words) s) as Hlen.
  cbn [fst] in Hlen.
  assert (Htok : tokens_in (s :: ss) = Z.of_nat (length s) + tokens_in ss).
  { unfold tokens_in. cbn [concat]. rewrite length_app. lia. }
  rewrite Htok in Hcap.
  assert (Hss : 0 <= tokens_in ss) by (unfold tokens_in; lia).
  destruct (count_sentence delimiter (vocab, total_words) s) as [v t] eqn:Hc.
  cbn [fst snd] in *.
  destruct (decide (max_vocab_size < len v)) as [Hgt|_]; [lia|].
  apply IH. lia.
Qed.

Lemma firsts_and_last (s : list string) :
  map fst (bigrams s) ++ option_list (last s) = s.
Proof.
  assert (H : map fst (bigrams s) ++ option_list (last s) = s /\
              forall a, map fst (bigrams (a :: s))
                        ++ option_list (last (a :: s)) = a :: s).
  { induction s as [|b s [IH1 IH2]].
    - split; reflexivity.
    - split; [exact (IH2 b)|]. intros a.
      change (bigrams (a :: b :: s)) with ((a, b) :: bigrams (b :: s)).
      rewrite last_cons_cons. cbn [map fst app]. f_equal. apply IH2. }
  apply H.
Qed.

Lemma occurrences_app (k : string) (l1 l2 : list string) :
  occurrences k (l1 ++ l2) = occurrences k l1 + occurrences k l2.
Proof. unfold occurrences. rewrite filter_app, length_app. lia. Qed.

Lemma count_sentence_keys (delimiter : string) (vocab : gmap string Z)
    (total_words : Z) (sentence : list string) (k : string) :
  count_of (count_sentence delimiter (vocab, total_words) sentence).1 k
  = count_of vocab k + occurrences k (counted_keys delimiter sentence).
Proof.
  destruct (count_sentence_eq delimiter vocab total_words sentence k)
    as [Hc _].
  rewrite Hc. unfold counted_keys. rewrite occurrences_app.
  rewrite <- (firsts_and_last (map any2utf8 sentence)) at 4.
  rewrite occurrences_app. lia.
Qed.

Lemma count_fold_keys (delimiter : string) (sentences : list (list string))
    (vocab : gmap string Z) (total_words : Z) (k : string) :
  count_of
    (fold_left (count_sentence delimiter) sentences (vocab, total_words)).1 k
  = count_of vocab k
    + occurrences k (concat (map (counted_keys delimiter) sentences)).
Proof.
  revert vocab total_words.
  induction sentences as [|s ss IH]; intros vocab total_words.
  - cbn. rewrite occurrences_nil. lia.
  - cbn [fold_left map concat].
    destruct (count_sentence delimiter (vocab, total_words) s) as [v t] eqn:Hc.
    rewrite IH, occurrences_app.
    pose proof (count_sentence_keys delimiter vocab total_words s k) as Hk.
    rewrite Hc in Hk. cbn [fst] in Hk. lia.
Qed.

Lemma learn_loop_no_pruning (sentences : list (list string))
    (max_vocab_size : Z) (delimiter : string) :
  2 * tokens_in sentences <= max_vocab_size ->
  learn_loop sentences max_vocab_size delimiter
  = (1, (count_all delimiter sentences).1, tokens_in sentences).
Proof.
  intros Hcap. unfold learn_loop, count_all.
  rewrite learn_fold_no_pruning by (change (len ∅) with 0; lia).
  f_equal.
  pose proof (learn_fold_total max_vocab_size delimiter sentences (1, ∅, 0))
    as Ht.
  rewrite learn_fold_no_pruning in Ht by (change (len ∅) with 0; lia).
  cbn [snd] in Ht. rewrite Ht. lia.
Qed.

(** X12: when [max_vocab_size] is at least twice the number of tokens and
    [progress_per] is not zero, [learn_vocab] never prunes: it returns
    [min_reduce = 1], the number of tokens, and a vocabulary in which the
    count of every key is exactly the number of times it occurs in the
    corpus as a token or as the compound key of an adjacent pair. *)
Theorem learn_vocab_exact (sentences : list (list string))
    (max_vocab_size : Z) (delimiter : string) (progress_per : Z) :
  progress_per <> 0 ->
  2 * tokens_in sentences <= max_vocab_size ->
  exists vocab,
    learn_vocab sentences max_vocab_size delimiter progress_per
    = Ok (1, vocab, tokens_in sentences) /\
    forall k,
      count_of vocab k
      = occurrences k (concat (map (counted_keys delimiter) sentences)).
Proof.
  intros Hpp Hcap. exists (count_all delimiter sentences).1.
  rewrite learn_vocab_ok by exact Hpp.
  rewrite learn_loop_no_pruning by assumption.
  split; [reflexivity|]. intros k.
  unfold count_all. rewrite count_fold_keys, count_of_empty. lia.
Qed.

Lemma merge_counts_len (self_vocab vocab : gmap string Z) :
  len (merge_counts self_vocab vocab) <= len self_vocab + len vocab.
Proof.
  unfold merge_counts.
  apply (map_fold_weak_ind
           (fun acc (m : gmap string Z) =>
              len acc <= len self_vocab + len m)).
  - change (len ∅) with 0. lia.
  - intros i x m acc Hnone IH.
    pose proof (add_count_len i x acc).
    unfold len at 3. rewrite map_size_insert_None by assumption.
    unfold len in *. lia.
Qed.

Lemma count_all_len (delimiter : string) (sentences : list (list string))
    (st : gmap string Z * Z) :
  len (fold_left (count_sentence delimiter) sentences st).1
  <= len st.1 + 2 * tokens_in sentences.
Proof.
  revert st. induction sentences as [|s ss IH]; intros st.
  - unfold tokens_in. simpl. lia.
  - cbn [fold_left]. etransitivity; [apply IH|].
    pose proof (count_sentence_len delimiter st s).
    unfold tokens_in. cbn [concat]. rewrite length_app. lia.
Qed.

Lemma merge_vocab_no_pruning (self : Phrases)
    (sentences : list (list string)) (k : string) :
  len (vocab self) + 2 * tokens_in sentences <= max_vocab_size self ->
  let self' :=
    merge_vocab self
      (learn_loop sentences (max_vocab_size self) (delimiter self)) in
  count_of (vocab self') k
  = count_of (vocab self) k
    + occurrences k (concat (map (counted_keys (delimiter self)) sentences))
  /\ len (vocab self') <= len (vocab self) + 2 * tokens_in sentences.
Proof.
  intros Hcap self'. subst self'.
  assert (H0 : 0 <= len (vocab self)) by (unfold len; lia).
  destruct (merge_vocab_cases self
              (learn_loop sentences (max_vocab_size self) (delimiter self)))
    as [_ H].
  cbv zeta in H.
  match goal with
  | |- context [vocab ?m] =>
      assert (Hv : vocab m = (vocab m, min_reduce m).1) by reflexivity
  end.
  rewrite Hv, H. clear Hv H.
  rewrite learn_loop_no_pruning by lia. cbn [fst snd].
  pose proof (count_all_len (delimiter self) sentences (∅, 0)) as Hlen.
  change (len (∅, 0).1) with 0 in Hlen.
  fold (count_all (delimiter self) sentences) in Hlen.
  assert (Hk : count_of (count_all (delimiter self) sentences).1 k
               = occurrences k
                   (concat (map (counted_keys (delimiter self)) sentences))).
  { unfold count_all. rewrite count_fold_keys, count_of_empty. lia. }
  destruct (decide (vocab self = ∅)) as [He | Hne]; cbn [fst].
  - rewrite He, count_of_empty. change (len ∅) with 0. lia.
  - pose proof (merge_counts_len (vocab self)
                  (count_all (delimiter self) sentences).1) as Hm.
    destruct (decide _) as [Hgt | _]; [lia|]. cbn [fst].
    rewrite merge_counts_count. lia.
Qed.

(** X13: when [max_vocab_size] leaves room for two new keys per token and
    [progress_per] is not zero, [add_vocab] returns and has added to the
    count of every key exactly the number of times the key occurs in the
    new sentences, whether or not the model was empty. *)
Theorem add_vocab_exact (self : Phrases) (sentences : list (list string)) :
  progress_per self <> 0 ->
  len (vocab self) + 2 * tokens_in sentences <= max_vocab_size self ->
  exists self',
    add_vocab self sentences = Ok self' /\
    forall k,
      count_of (vocab self') k
      = count_of (vocab self) k
        + occurrences k
            (concat (map (counted_keys (delimiter self)) sentences)).
Proof.
  intros Hpp Hcap. eexists. split; [apply add_vocab_ok; exact Hpp|].
  intros k. apply merge_vocab_no_pruning. exact Hcap.
Qed.

Lemma tokens_in_app (l1 l2 : list (list string)) :
  tokens_in (l1 ++ l2) = tokens_in l1 + tokens_in l2.
Proof. unfold tokens_in. rewrite concat_app, length_app. lia. Qed.

(** X14: when [max_vocab_size] leaves room for two new keys per token of
    both batches and [progress_per] is not zero, adding two batches of
    sentences one after the other gives every key the same count as adding
    their concatenation at once. *)
Theorem add_vocab_batches (self : Phrases)
    (batch1 batch2 : list (list string)) :
  progress_per self <> 0 ->
  len (vocab self) + 2 * tokens_in (batch1 ++ batch2)
  <= max_vocab_size self ->
  exists self1 self2 self12,
    add_vocab self batch1 = Ok self1 /\
    add_vocab self1 batch2 = Ok self2 /\
    add_vocab self (batch1 ++ batch2) = Ok self12 /\
    forall k, count_of (vocab self2) k = count_of (vocab self12) k.
Proof.
  intros Hpp Hcap. rewrite tokens_in_app in Hcap.
  assert (H1 : 0 <= tokens_in batch1) by (unfold tokens_in; lia).
  assert (H2 : 0 <= tokens_in batch2) by (unfold tokens_in; lia).
  set (self1 := merge_vocab self
                  (learn_loop batch1 (max_vocab_size self) (delimiter self))).
  destruct (merge_vocab_settings self
              (learn_loop batch1 (max_vocab_size self) (delimiter self)))
    as [_ [Hmax [Hd [_ [_ Hpp1]]]]].
  fold self1 in Hmax, Hd, Hpp1.
  exists self1. eexists. eexists.
  split; [apply add_vocab_ok; exact Hpp|].
  split; [apply add_vocab_ok; rewrite Hpp1; exact Hpp|].
  split; [apply add_vocab_ok; exact Hpp|].
  intros k.
  destruct (merge_vocab_no_pruning self batch1 k ltac:(lia)) as [Hc1 Hl1].
  cbv zeta in Hc1, Hl1. fold self1 in Hc1, Hl1.
  destruct (merge_vocab_no_pruning self1 batch2 k) as [Hc2 _];
    [rewrite Hmax; lia|].
  cbv zeta in Hc2.
  destruct (merge_vocab_no_pruning self (batch1 ++ batch2) k) as [Hc _];
    [rewrite tokens_in_app; lia|].
  cbv zeta in Hc.
  rewrite Hc2, Hc1, Hc, Hd, map_app, concat_app, occurrences_app. lia.
Qed.

(** ** Totals and bounds *)

Lemma add_vocab_word_count (self : Phrases) (sentences : list (list string))
    (self' : Phrases) :
  add_vocab self sentences = Ok self' ->
  corpus_word_count self'
  = corpus_word_count self + tokens_in sentences.
Proof.
  intros H. apply add_vocab_inv in H as [_ ->].
  destruct (merge_vocab_cases self
              (learn_loop sentences (max_vocab_size self) (delimiter self)))
    as [H _].
  cbv zeta in H. rewrite H. unfold learn_loop.
  rewrite learn_fold_total. cbn [snd]. lia.
Qed.

(** X15: [corpus_word_count] is the number of tokens seen: zero after a
    construction without sentences, the number of tokens of the sentences
    after a construction with sentences, and every [add_vocab] that returns
    has added the number of tokens of its sentences, whatever was pruned. *)
Theorem corpus_word_count_tokens :
  (forall (self : Phrases) sentences self',
      add_vocab self sentences = Ok self' ->
      corpus_word_count self'
      = corpus_word_count self + tokens_in sentences) /\
  (forall sentences min_count threshold max_vocab_size delimiter
          progress_per scoring (self : Phrases),
      Phrases_init sentences min_count threshold max_vocab_size delimiter
        progress_per scoring = Ok self ->
      corpus_word_count self
      = match sentences with
        | Some sentences => tokens_in sentences
        | None => 0
        end).
Proof.
  split; [apply add_vocab_word_count|].
  intros sentences mc th mvs d pp sc self Hinit.
  unfold Phrases_init in Hinit.
  destruct (Phrases_configure _ _ _ _ _ _) as [self0|e] eqn:Hc;
    [|discriminate].
  apply configure_progress_per in Hc as [_ [_ [_ [_ H0]]]].
  destruct sentences as [ss|].
  - apply add_vocab_word_count in Hinit. lia.
  - injection Hinit as <-. exact H0.
Qed.

Lemma learn_fold_min_reduce_le (max_vocab_size : Z) (delimiter : string)
    (sentences : list (list string)) (st : Z * gmap string Z * Z) :
  (fold_left (learn_sentence max_vocab_size delimiter) sentences st).1.1
  <= st.1.1 + Z.of_nat (length sentences).
Proof.
  revert st. induction sentences as [|s ss IH]; intros st; [simpl; lia|].
  cbn [fold_left]. etransitivity; [apply IH|].
  destruct st as [[mr v] t]. rewrite learn_sentence_cases.
  rewrite length_cons. destruct (decide _); cbn [fst]; lia.
Qed.

(** X16: [learn_vocab] prunes at most once per sentence, so the
    [min_reduce] it returns is at most one more than the number of
    sentences; [add_vocab] prunes at most once more. *)
Theorem min_reduce_upper_bound :
  (forall sentences max_vocab_size delimiter progress_per learned,
      learn_vocab sentences max_vocab_size delimiter progress_per
      = Ok learned ->
      learned.1.1 <= 1 + Z.of_nat (length sentences)) /\
  (forall (self : Phrases) sentences self',
      add_vocab self sentences = Ok self' ->
      min_reduce self'
      <= Z.max (min_reduce self) (1 + Z.of_nat (length sentences)) + 1).
Proof.
  assert (Hloop : forall sentences max_vocab_size delimiter,
      (learn_loop sentences max_vocab_size delimiter).1.1
      <= 1 + Z.of_nat (length sentences)).
  { intros ss mvs d. unfold learn_loop.
    apply (learn_fold_min_reduce_le mvs d ss (1, ∅, 0)). }
  split.
  - intros ss mvs d pp learned H. apply learn_vocab_inv in H as ->.
    apply Hloop.
  - intros self ss self' H. apply add_vocab_inv in H as [_ ->].
    destruct (merge_vocab_cases self
                (learn_loop ss (max_vocab_size self) (delimiter self)))
      as [_ H].
    cbv zeta in H.
    match goal with
    | |- min_reduce ?m <= _ =>
        assert (Hmr : min_reduce m = (vocab m, min_reduce m).2)
          by reflexivity
    end.
    rewrite Hmr, H.
    pose proof (Hloop ss (max_vocab_size self) (delimiter self)).
    destruct (decide (vocab self = ∅)); [cbn [snd]; lia|].
    destruct (decide _); cbn [snd]; lia.
Qed.

(** ** The built-in scorers *)

Lemma round64_pos_nonneg (n : Z) (d : positive) :
  0 < n ->
  match round64_pos n d with
  | Fin q => (0 <= q)%Q
  | PosInf => True
  | NegInf | NaN => False
  end.
Proof.
  intros Hn. unfold round64_pos. cbv zeta.
  match goal with
  | |- context [Z.max ?x (-1074)] => set (e := Z.max x (-1074))
  end.
  set (num := if 0 <=? e then n else n * 2 ^ (- e)).
  set (den := if 0 <=? e then Z.pos d * 2 ^ e else Z.pos d).
  assert (Hnum : 0 <= num).
  { subst num. destruct (0 <=? e); [lia|].
    apply Z.mul_nonneg_nonneg; [lia|]. apply Z.pow_nonneg. lia. }
  assert (Hden : 0 < den).
  { subst den. destruct (Z.leb_spec 0 e); [|lia].
    apply Z.mul_pos_pos; [lia|]. apply Z.pow_pos_nonneg; lia. }
  set (m := num / den). assert (Hm : 0 <= m) by (apply Z.div_pos; assumption).
  set (m' := match 2 * (num mod den) ?= den with
             | Eq => if Z.even m then m else m + 1
             | Lt => m
             | Gt => m + 1
             end).
  assert (Hm' : 0 <= m').
  { subst m'. destruct (2 * (num mod den) ?= den);
      [destruct (Z.even m)|..]; lia. }
  destruct (_ || _); [exact I|].
  destruct (Z.leb_spec 0 e) as [He|He].
  - change 0%Q with (inject_Z 0). rewrite <- Zle_Qle.
    apply Z.mul_nonneg_nonneg; [lia|]. apply Z.pow_nonneg. lia.
  - rewrite Qred_correct. unfold Qle. cbn. lia.
Qed.

Lemma round64_nonpositive (q : Q) : (q <= 0)%Q -> nonpositive (round64 q).
Proof.
  destruct q as [n d]. unfold round64, Qle. cbn [Qnum Qden].
  rewrite Z.mul_1_r, Z.mul_0_l. intros Hq.
  destruct n as [|n|n]; [apply Qle_refl | lia |].
  pose proof (round64_pos_nonneg (Z.pos n) d ltac:(lia)) as H.
  destruct (round64_pos (Z.pos n) d) as [q| | |]; cbn; try contradiction;
    [|exact I].
  revert H. unfold Qle. cbn. lia.
Qed.

Lemma Qdiv_nonpos (q a : Q) : (q <= 0)%Q -> (0 <= a)%Q -> (q / a <= 0)%Q.
Proof.
  intros Hq Ha. unfold Qdiv. rewrite <- (Qmult_0_l (/ a)).
  apply Qmult_le_compat_r; [exact Hq | apply Qinv_le_0_compat; exact Ha].
Qed.

Lemma Qmult_nonpos_nonneg (x y : Q) :
  (x <= 0)%Q -> (0 <= y)%Q -> (x * y <= 0)%Q.
Proof.
  intros Hx Hy. rewrite <- (Qmult_0_l y).
  apply Qmult_le_compat_r; assumption.
Qed.

Lemma float_div_nonpositive (x y : pyfloat) (a : Q) :
  nonpositive x -> (0 <= a)%Q -> float_div x (Fin a) = Ok y -> nonpositive y.
Proof.
  intros Hx Ha. unfold float_div.
  destruct (Z.eqb_spec (Qnum a) 0) as [H0|H0]; [discriminate|].
  destruct x as [q| | |]; cbn in Hx; try contradiction;
    intros H; injection H as <-.
  - apply round64_nonpositive. apply Qdiv_nonpos; assumption.
  - assert (Hpos : 0 < Qnum a).
    { revert Ha. unfold Qle. cbn. lia. }
    destruct (Qnum a); try lia. exact I.
Qed.

Lemma float_mul_nonpositive (x : pyfloat) (n : Q) :
  nonpositive x -> (0 < n)%Q -> nonpositive (float_mul x (Fin n)).
Proof.
  intros Hx Hn. destruct x as [q| | |]; cbn in Hx; try contradiction; cbn.
  - apply round64_nonpositive. apply Qmult_nonpos_nonneg; [exact Hx|].
    apply Qlt_le_weak. exact Hn.
  - assert (Hpos : 0 < Qnum n).
    { revert Hn. unfold Qlt. cbn. lia. }
    destruct (Qnum n); try lia. exact I.
Qed.

Lemma float_gt_nonpositive (x t : pyfloat) :
  nonpositive x -> float_gt (Fin 0) t = false -> float_gt x t = false.
Proof.
  destruct x as [q| | |]; cbn [nonpositive]; try contradiction;
    [|intros _ _; destruct t; reflexivity].
  intros Hq. destruct t as [t| | |]; simpl; try reflexivity; try discriminate.
  destruct (Qlt_le_dec t 0) as [Hlt | Hle]; [discriminate|]. intros _.
  destruct (Qlt_le_dec t q) as [Hlt | _]; [|reflexivity].
  exfalso. apply (Qlt_irrefl t).
  apply (Qlt_le_trans _ q); [exact Hlt|].
  apply (Qle_trans _ 0); assumption.
Qed.

(** On floats too, the default score of a pair whose compound count is at
    most [min_count] is not above zero. *)
Lemma original_scorer_float_nonpositive
    (worda_count wordb_count bigram_count len_vocab min_count
       corpus_word_count : Q) (score : pyfloat) :
  (0 <= worda_count)%Q -> (0 <= wordb_count)%Q -> (0 < len_vocab)%Q ->
  (bigram_count <= min_count)%Q ->
  original_scorer_float (Fin worda_count) (Fin wordb_count)
    (Fin bigram_count) (Fin len_vocab) (Fin min_count)
    (Fin corpus_word_count) = Ok score ->
  nonpositive score.
Proof.
  intros Ha Hb Hn Hle. unfold original_scorer_float.
  assert (Hsub : nonpositive (float_sub (Fin bigram_count) (Fin min_count))).
  { cbn [float_sub]. apply round64_nonpositive.
    apply (Qplus_le_l _ _ min_count). ring_simplify. exact Hle. }
  destruct (float_div _ (Fin worda_count)) as [per_a|e] eqn:H1;
    [|discriminate].
  apply (float_div_nonpositive _ _ _ Hsub Ha) in H1.
  destruct (float_div per_a (Fin wordb_count)) as [per_ab|e] eqn:H2;
    [|discriminate].
  apply (float_div_nonpositive _ _ _ H1 Hb) in H2.
  intros H; injection H as <-.
  apply float_mul_nonpositive; assumption.
Qed.

(** X17: with the built-in default scorer and a threshold that is not
    negative, a pair is merged only if the count of its compound key is
    strictly greater than [min_count] (counts being non-negative): at
    [min_count] itself the score is zero. *)
Theorem default_scorer_floor (self : Phrases) (word_a word_b : string) :
  scoring self = original_scorer_fn ->
  float_gt (Fin 0) (threshold self) = false ->
  (forall k c, vocab self !! k = Some c -> 0 <= c) ->
  qualifies self word_a word_b = true ->
  min_count self
  < count_of (vocab self) (str_join (delimiter self) [word_a; word_b]).
Proof.
  intros Hsc Hth Hpos Hq.
  apply qualifies_iff in Hq as [[ca Ha] [_ [_ [Hgt _]]]].
  destruct (Z.lt_ge_cases (min_count self)
              (count_of (vocab self)
                 (str_join (delimiter self) [word_a; word_b])))
    as [Hlt | Hge]; [exact Hlt|].
  exfalso. unfold pair_score in Hgt. rewrite Hsc in Hgt.
  cbn [sc_call original_scorer_fn] in Hgt.
  assert (Hnn : forall k, (0 <= float_of_int (count_of (vocab self) k))%Q).
  { intros k. unfold float_of_int, count_of.
    change 0%Q with (inject_Z 0). rewrite <- Zle_Qle.
    destruct (vocab self !! k) as [c|] eqn:Hk; simpl;
      [apply (Hpos k c Hk) | lia]. }
  assert (Hlen : (0 < float_of_int (len (vocab self)))%Q).
  { unfold float_of_int. change 0%Q with (inject_Z 0). rewrite <- Zlt_Qlt.
    apply Z.gtb_lt. apply len_pos_iff. intros He.
    rewrite He, lookup_empty in Ha. discriminate. }
  destruct (original_scorer_float _ _ _ _ _ _) as [score|e] eqn:Hscore;
    [|discriminate].
  cbn [score_above] in Hgt.
  rewrite float_gt_nonpositive in Hgt; [discriminate | | exact Hth].
  apply (original_scorer_float_nonpositive _ _ _ _ _ _ _
           (Hnn word_a) (Hnn word_b) Hlen) in Hscore; [exact Hscore|].
  unfold float_of_int. rewrite <- Zle_Qle. lia.
Qed.

(** With the default scorer, the call returns on every pair whose words
    have counts that are not zero. *)
Lemma default_scorer_defined (self : Phrases) :
  scoring self = original_scorer_fn ->
  (forall k c, vocab self !! k = Some c -> c <> 0) ->
  scores_defined self.
Proof.
  intros Hsc Hnz word_a word_b [ca Ha] [cb Hb] _.
  unfold pair_score. rewrite Hsc. cbn [sc_call original_scorer_fn].
  unfold original_scorer_float, count_of. rewrite Ha, Hb.
  cbn [default from_option id].
  assert (Hdiv : forall x c, c <> 0 ->
            exists y, float_div x (Fin (float_of_int c)) = Ok y).
  { intros x c Hc. unfold float_div, float_of_int. cbn [Qnum inject_Z].
    apply Z.eqb_neq in Hc. rewrite Hc. destruct x; eexists; reflexivity. }
  match goal with
  | |- context [float_div ?x (Fin (float_of_int ca))] =>
      destruct (Hdiv x ca (Hnz _ _ Ha)) as [per_a ->]
  end.
  destruct (Hdiv per_a cb (Hnz _ _ Hb)) as [per_ab ->].
  eexists; reflexivity.
Qed.

Lemma Qmult_comm_eq (x y : Q) : (x * y)%Q = (y * x)%Q.
Proof.
  unfold Qmult. f_equal; [apply Z.mul_comm | apply Pos.mul_comm].
Qed.

Lemma float_mul_comm (x y : pyfloat) : float_mul x y = float_mul y x.
Proof.
  destruct x as [a| | |], y as [b| | |]; try reflexivity.
  cbn [float_mul]. rewrite Qmult_comm_eq. reflexivity.
Qed.

Lemma float_div_raises (x y : pyfloat) (e : exn) :
  float_div x y = Raise e -> e = ZeroDivisionError.
Proof.
  unfold float_div. destruct y as [b| | |].
  - destruct (Qnum b =? 0); [intros H; injection H as <-; reflexivity|].
    destruct x; discriminate.
  - destruct x; discriminate.
  - destruct x; discriminate.
  - discriminate.
Qed.

(** X18: over exact rationals the default scorer is symmetric in the counts
    of the two words; on floats, where each of its two divisions rounds, it
    is not: with a bigram count of 2, a vocabulary of 3 keys and
    [min_count = 1], the word counts 3 and 11 score lower than the word
    counts 11 and 3.  The npmi scorer is symmetric on floats. *)
Theorem scorers_symmetric :
  (forall worda_count wordb_count bigram_count len_vocab min_count
          corpus_word_count : Q,
      (original_scorer worda_count wordb_count bigram_count len_vocab
         min_count corpus_word_count
       == original_scorer wordb_count worda_count bigram_count len_vocab
            min_count corpus_word_count)%Q) /\
  (exists low high,
      sc_call original_scorer_fn 3 11 2 3 1 100 = Ok low /\
      sc_call original_scorer_fn 11 3 2 3 1 100 = Ok high /\
      float_lt low high = true) /\
  (forall worda_count wordb_count bigram_count len_vocab min_count
          corpus_word_count : pyfloat,
      npmi_scorer worda_count wordb_count bigram_count len_vocab min_count
        corpus_word_count
      = npmi_scorer wordb_count worda_count bigram_count len_vocab min_count
          corpus_word_count).
Proof.
  split; [|split].
  - intros a b ab n mc cwc. unfold original_scorer, Qdiv. ring.
  - eexists. eexists.
    split; [vm_compute; reflexivity|].
    split; [vm_compute; reflexivity|].
    vm_compute. reflexivity.
  - intros a b ab n mc cwc. unfold npmi_scorer.
    destruct (float_div a cwc) as [pa|e1] eqn:Ha,
      (float_div b cwc) as [pb|e2] eqn:Hb; try reflexivity.
    + rewrite (float_mul_comm pb pa). reflexivity.
    + apply float_div_raises in Ha, Hb. congruence.
Qed.

End Phrases.

(** * Concrete runs *)

(** C2: a model built with a custom scoring function may have a threshold
    below [-1]; the [Phraser] compiled from it then merges a pair that is
    not a key of its (empty) [phrasegrams], because the sentinel score [-1]
    of an absent pair exceeds the threshold.  The full model leaves the
    same sentence alone. *)
Theorem Phraser_merges_absent_pair :
  Phrases_init id (fun x => Ok x) prune_vocab_spec None 1 (Fin (-2)) 40000000
    "_" 10000 (ScoringFn original_scorer_fn)
  = Ok (Model 1 (Fin (-2)) 40000000 ∅ 1 "_" 10000 0 original_scorer_fn) /\
  Phraser_init id
    (Model 1 (Fin (-2)) 40000000 ∅ 1 "_" 10000 0 original_scorer_fn)
  = Ok (MkPhraser (Fin (-2)) 1 "_" original_scorer_fn ∅) /\
  phrasegrams (MkPhraser (Fin (-2)) 1 "_" original_scorer_fn ∅)
    !! ("a", "b") = None /\
  Phraser_transform id id (MkPhraser (Fin (-2)) 1 "_" original_scorer_fn ∅)
    ["a"; "b"] = ["a_b"] /\
  Phrases_transform id id
    (Model 1 (Fin (-2)) 40000000 ∅ 1 "_" 10000 0 original_scorer_fn)
    ["a"; "b"] = Ok ["a"; "b"].
Proof. repeat (split; [reflexivity|]). reflexivity. Qed.

(** C3, as stated, fails: for the one-token sentence [["a"]] the returned
    total is 1 although no adjacent pair was counted. *)
Lemma learn_vocab_total_counts_last_token :
  learn_vocab id prune_vocab_spec [["a"]] 40000000 "_" 10000
  = Ok (1, <["a" := 1]> ∅, 1) /\
  pairs_in [["a"]] = 0 /\
  tokens_in [["a"]] = 1.
Proof. repeat (split; [reflexivity|]). reflexivity. Qed.



Lemma load_resolves_scoring_witness :
  Phrases_load (fun x => Ok x)
    (set_scoring (Model 5 (Fin 10) 40000000 ∅ 1 "_" 10000 0 ()) None)
  = Ok (set_scoring (Model 5 (Fin 10) 40000000 ∅ 1 "_" 10000 0 ())
          original_scorer_fn) /\
  Phrases_load (fun x => Ok x)
    (set_scoring (Model 5 (Fin 10) 40000000 ∅ 1 "_" 10000 0 ())
       (Some (AttrStr "default")))
  = Ok (set_scoring (Model 5 (Fin 10) 40000000 ∅ 1 "_" 10000 0 ())
          original_scorer_fn) /\
  Phrases_load (fun x => Ok x)
    (set_scoring (Model 5 (Fin 10) 40000000 ∅ 1 "_" 10000 0 ())
       (Some (AttrStr "npmi")))
  = Ok (set_scoring (Model 5 (Fin 10) 40000000 ∅ 1 "_" 10000 0 ())
          (npmi_scorer_fn (fun x => Ok x))) /\
  Phrases_load (fun x => Ok x)
    (set_scoring (Model 5 (Fin 10) 40000000 ∅ 1 "_" 10000 0 ())
       (Some (AttrStr "pmi")))
  = Raise (ValueError
             ("failed to load Phrases model with unknown scoring setting "
              +:+ "pmi")) /\
  sc_name original_scorer_fn <> sc_name (npmi_scorer_fn (fun x => Ok x)).
Proof.
  apply (load_resolves_scoring (fun x => Ok x)
           (set_scoring (Model 5 (Fin 10) 40000000 ∅ 1 "_" 10000 0 ()) None)
           "pmi");
    discriminate.
Defined.

Lemma Phraser_infinite_threshold_witness :
  (forall w : string, id (id w) = w) /\
  Phrases_init id (fun x => Ok x) prune_vocab_spec
    (Some [["new"; "york"]; ["new"; "york"]]) 1 PosInf 100 "_" 10000
    (ScoringStr "default")
  = Ok (Model 1 PosInf 100
          (<["new" := 2]> (<["york" := 2]> (<["new_york" := 2]> ∅)))
          1 "_" 10000 4 original_scorer_fn) /\
  Phraser_init id
    (Model 1 PosInf 100
       (<["new" := 2]> (<["york" := 2]> (<["new_york" := 2]> ∅)))
       1 "_" 10000 4 original_scorer_fn)
  = Ok (MkPhraser PosInf 1 "_" original_scorer_fn ∅) /\
  Phraser_transform id id (MkPhraser PosInf 1 "_" original_scorer_fn ∅)
    ["new"; "york"] = ["new"; "york"].
Proof.
  assert (Hround : forall w : string, id (id w) = w) by reflexivity.
  assert (Hinit :
    Phrases_init id (fun x => Ok x) prune_vocab_spec
      (Some [["new"; "york"]; ["new"; "york"]]) 1 PosInf 100 "_" 10000
      (ScoringStr "default")
    = Ok (Model 1 PosInf 100
            (<["new" := 2]> (<["york" := 2]> (<["new_york" := 2]> ∅)))
            1 "_" 10000 4 original_scorer_fn))
    by reflexivity.
  assert (Hphraser :
    Phraser_init id
      (Model 1 PosInf 100
         (<["new" := 2]> (<["york" := 2]> (<["new_york" := 2]> ∅)))
         1 "_" 10000 4 original_scorer_fn)
    = Ok (MkPhraser PosInf 1 "_" original_scorer_fn ∅))
    by reflexivity.
  split; [exact Hround|]. split; [exact Hinit|]. split; [exact Hphraser|].
  exact (Phraser_infinite_threshold id id (fun x => Ok x) prune_vocab_spec
           _ _ _ _ _ _ _ _ _ Hround Hinit Hphraser).
Defined.

(** ** Instances of the further properties *)

Lemma pseudocorpus_sentences_witness :
  exists prefix suffix,
    ["new"; "york_times"] = [prefix; suffix] /\
    is_Some ((<["new_york_times" := 1]> ∅ : gmap string Z)
               !! str_join "_" [prefix; suffix]).
Proof.
  apply (pseudocorpus_sentences (<["new_york_times" := 1]> ∅) "_"
           [["new"; "york_times"]; ["new_york"; "times"]]).
  - vm_compute. reflexivity.
  - left.
Defined.

Lemma export_phrases_sound_witness :
  is_Some (vocab example_model !! "new") /\
  is_Some (vocab example_model !! "york") /\
  is_Some (vocab example_model !! str_join (delimiter example_model)
                                    ["new"; "york"]) /\
  pair_score example_model "new" "york"
  = Ok (score_of example_model "new" "york") /\
  float_gt (score_of example_model "new" "york") (threshold example_model)
  = true /\
  min_count example_model
  <= count_of (vocab example_model)
       (str_join (delimiter example_model) ["new"; "york"]).
Proof.
  apply (export_phrases_sound id example_model [["the"; "new"; "york"]]
           [("new", "york", score_of example_model "new" "york")]).
  - vm_compute. reflexivity.
  - left.
Defined.

Lemma transform_export_lengths_witness :
  exists phrases,
    export_sentence id example_model ["the"; "new"; "york"] = Ok phrases /\
    (length ["the"; "new_york"] + length phrases)%nat
    = length ["the"; "new"; "york"].
Proof.
  apply (transform_export_lengths id id example_model
           ["the"; "new"; "york"] ["the"; "new_york"]).
  vm_compute. reflexivity.
Defined.

Lemma Phrases_transform_unknown_witness :
  Phrases_transform id id
    (Model 5 (Fin 10) 40000000 ∅ 1 "_" 10000 0 original_scorer_fn)
    ["new"; "york"]
  = Ok (map id (map id ["new"; "york"])).
Proof.
  apply (Phrases_transform_unknown id id
           (Model 5 (Fin 10) 40000000 ∅ 1 "_" 10000 0 original_scorer_fn)).
  intros a b _. left. apply lookup_empty.
Defined.

Lemma phrasegrams_sound_witness :
  Phraser_init id example_model = Ok example_phraser /\
  phrasegrams example_phraser !! ("new", "york")
  = Some (6, score_of example_model "new" "york") /\
  vocab example_model !! str_join (delimiter example_model) ["new"; "york"]
  = Some 6 /\
  pair_score example_model "new" "york"
  = Ok (score_of example_model "new" "york") /\
  float_gt (score_of example_model "new" "york")
    (phraser_threshold example_phraser) = true.
Proof.
  assert (Hinit : Phraser_init id example_model = Ok example_phraser)
    by reflexivity.
  assert (Hlook : phrasegrams example_phraser !! ("new", "york")
                  = Some (6, score_of example_model "new" "york"))
    by (vm_compute; reflexivity).
  split; [exact Hinit|]. split; [exact Hlook|].
  destruct (phrasegrams_sound id example_model example_phraser "new" "york"
              6 (score_of example_model "new" "york") Hinit Hlook)
    as [_ [_ [_ [_ [_ [_ [Hcount [Hscore [Hgt _]]]]]]]]].
  split; [exact Hcount|]. split; [exact Hscore | exact Hgt].
Defined.

Lemma Phraser_merges_only_qualifying_witness :
  qualifies example_model "new" "york" = true.
Proof.
  apply (Phraser_merges_only_qualifying id example_model example_phraser).
  - vm_compute. reflexivity.
  - reflexivity.
  - vm_compute. reflexivity.
Defined.

Lemma Phraser_agrees_with_Phrases_witness :
  Phrases_transform id id example_model ["the"; "new"; "york"; "times"]
  = Ok (Phraser_transform id id example_phraser
          ["the"; "new"; "york"; "times"]).
Proof.
  apply (Phraser_agrees_with_Phrases id id example_model example_phraser).
  - reflexivity.
  - reflexivity.
  - vm_compute. reflexivity.
  - reflexivity.
Defined.

Lemma reachable_positive_counts_witness :
  positive_counts
    (vocab
       (Model 1 (Fin 1) 100
          (<["new" := 1]> (<["york" := 1]> (<["new_york" := 1]> ∅)))
          1 "_" 10000 2 original_scorer_fn)).
Proof.
  apply (reachable_positive_counts id (fun x => Ok x) prune_vocab_spec).
  - intros vocab min_reduce k c H.
    apply prune_vocab_spec_lookup in H. destruct H as [H _]. exact H.
  - apply (reachable_init id (fun x => Ok x) prune_vocab_spec
             (Some [["new"; "york"]]) 1 (Fin 1) 100 "_" 10000
             (ScoringStr "default")).
    reflexivity.
Defined.

Lemma learn_vocab_exact_witness :
  exists vocab,
    learn_vocab id prune_vocab_spec [["a"; "b"]; ["a"; "b"]] 100 "_" 10000
    = Ok (1, vocab, tokens_in [["a"; "b"]; ["a"; "b"]]) /\
    forall k,
      count_of vocab k
      = occurrences k
          (concat (map (counted_keys id "_") [["a"; "b"]; ["a"; "b"]])).
Proof.
  apply (learn_vocab_exact id prune_vocab_spec [["a"; "b"]; ["a"; "b"]] 100
           "_" 10000).
  - discriminate.
  - vm_compute. discriminate.
Defined.

Lemma add_vocab_exact_witness :
  exists self',
    add_vocab id prune_vocab_spec example_model [["new"; "york"]] = Ok self' /\
    forall k,
      count_of (vocab self') k
      = count_of (vocab example_model) k
        + occurrences k
            (concat (map (counted_keys id (delimiter example_model))
                       [["new"; "york"]])).
Proof.
  apply (add_vocab_exact id prune_vocab_spec example_model
           [["new"; "york"]]).
  - discriminate.
  - vm_compute. discriminate.
Defined.

Lemma add_vocab_batches_witness :
  exists self1 self2 self12,
    add_vocab id prune_vocab_spec example_model [["new"; "york"]]
    = Ok self1 /\
    add_vocab id prune_vocab_spec self1 [["york"; "times"]] = Ok self2 /\
    add_vocab id prune_vocab_spec example_model
      ([["new"; "york"]] ++ [["york"; "times"]]) = Ok self12 /\
    forall k, count_of (vocab self2) k = count_of (vocab self12) k.
Proof.
  apply (add_vocab_batches id prune_vocab_spec example_model
           [["new"; "york"]] [["york"; "times"]]).
  - discriminate.
  - vm_compute. discriminate.
Defined.

Lemma default_scorer_floor_witness :
  min_count example_model
  < count_of (vocab example_model)
      (str_join (delimiter example_model) ["new"; "york"]).
Proof.
  apply (default_scorer_floor example_model "new" "york").
  - reflexivity.
  - vm_compute. reflexivity.
  - intros k c H. apply elem_of_map_to_list in H.
    assert (Hl : map_to_list (vocab example_model)
                 = [("york", 5); ("new_york", 6); ("new", 5)])
      by (vm_compute; reflexivity).
    rewrite Hl in H.
    repeat (apply elem_of_cons in H as [H | H];
            [injection H as _ ->; lia|]).
    inversion H.
  - vm_compute. reflexivity.
Defined.
